(** * Address book assistant (main.py): fields, records, the book and the
    [add] command, embedded as executable definitions.

    Python values are modelled as the interpreter has them:
    - a [str] is a sequence of Unicode code points ([pystr]);
    - [re] patterns are run by a small backtracking matcher with the
      priorities of Python's engine, and [\d] is the Unicode decimal digit
      class, as it is for [str] patterns;
    - [datetime.date] is a year/month/day triple with the proleptic Gregorian
      ordinal of the standard library;
    - [Record] objects live in a store and are referred to by location, so a
      record inserted in the book and mutated afterwards is one object;
    - the book's [data] is a dict, which iterates in insertion order: an
      association list with distinct keys;
    - every exception this code raises is a [ValueError]. *)

From Stdlib Require Import ZArith NArith List String Ascii Lia Bool.
From stdpp Require Import base tactics option list.
Import ListNotations.

Local Open Scope N_scope.

(** ** Strings *)

Definition codepoint := N.
Definition pystr := list codepoint.

(** The code points of an ASCII literal. *)
Definition py (s : string) : pystr := map N_of_ascii (list_ascii_of_string s).

Fixpoint str_eqb (a b : pystr) : bool :=
  match a, b with
  | [], [] => true
  | x :: a', y :: b' => (x =? y) && str_eqb a' b'
  | _, _ => false
  end.

(** ** Unicode decimal digits

    [\d] in a [str] pattern, and [int], accept every character of category
    Nd.  The category is made of runs of ten consecutive code points, the
    digits 0 to 9 of one script; [Nd_zeros] lists the code point of each
    run's zero (Unicode 14.0, the database of CPython 3.11). *)

Definition Nd_zeros : list codepoint :=
  [ 0x30; 0x660; 0x6f0; 0x7c0; 0x966; 0x9e6; 0xa66; 0xae6; 0xb66; 0xbe6;
    0xc66; 0xce6; 0xd66; 0xde6; 0xe50; 0xed0; 0xf20; 0x1040; 0x1090; 0x17e0;
    0x1810; 0x1946; 0x19d0; 0x1a80; 0x1a90; 0x1b50; 0x1bb0; 0x1c40; 0x1c50;
    0xa620; 0xa8d0; 0xa900; 0xa9d0; 0xa9f0; 0xaa50; 0xabf0; 0xff10; 0x104a0;
    0x10d30; 0x11066; 0x110f0; 0x11136; 0x111d0; 0x112f0; 0x11450; 0x114d0;
    0x11650; 0x116c0; 0x11730; 0x118e0; 0x11950; 0x11c50; 0x11d50; 0x11da0;
    0x16a60; 0x16ac0; 0x16b50; 0x1d7ce; 0x1d7d8; 0x1d7e2; 0x1d7ec; 0x1d7f6;
    0x1e140; 0x1e2f0; 0x1e950; 0x1fbf0 ].

Definition in_run (c z : codepoint) : bool := (z <=? c) && (c <? z + 10).

(** The digit a character stands for, if it is a decimal digit. *)
Definition digit_value (c : codepoint) : option N :=
  match List.find (in_run c) Nd_zeros with
  | Some z => Some (c - z)
  | None => None
  end.

Definition is_decimal (c : codepoint) : bool :=
  match digit_value c with Some _ => true | None => false end.

Definition is_ascii_digit (c : codepoint) : bool := (0x30 <=? c) && (c <=? 0x39).

(** ** Regular expressions: the fragment the program's patterns use *)

Inductive regex : Type :=
  | Eps
  | Lit (c : codepoint)
  | Range (lo hi : codepoint)
  | Digit
  | Seq (r1 r2 : regex)
  | Alt (r1 r2 : regex).

(** [r{n}] *)
Fixpoint times (n : nat) (r : regex) : regex :=
  match n with
  | O => Eps
  | S n' => Seq r (times n' r)
  end.

(** One character of the subject against a character test. *)
Definition step_char {A} (test : codepoint -> bool) (s : pystr)
    (k : pystr -> option A) : option A :=
  match s with
  | c :: s' => if test c then k s' else None
  | [] => None
  end.

(** The backtracking matcher: [k] is the rest of the pattern, the first
    alternative that lets the whole pattern succeed wins. *)
Fixpoint rmatch {A} (r : regex) (s : pystr) (k : pystr -> option A) : option A :=
  match r with
  | Eps => k s
  | Lit c => step_char (N.eqb c) s k
  | Range lo hi => step_char (fun x => (lo <=? x) && (x <=? hi)) s k
  | Digit => step_char is_decimal s k
  | Seq r1 r2 => rmatch r1 s (fun s' => rmatch r2 s' k)
  | Alt r1 r2 =>
      match rmatch r1 s k with
      | Some a => Some a
      | None => rmatch r2 s k
      end
  end.

(** [re.fullmatch(r, s)] as a truth value. *)
Definition fullmatch (r : regex) (s : pystr) : bool :=
  match rmatch r s (fun rest => match rest with [] => Some tt | _ => None end) with
  | Some _ => true
  | None => false
  end.

(** ** Exceptions *)

Inductive exn : Type :=
  | ValueError (msg : pystr).

Definition str_of_exn (e : exn) : pystr :=
  match e with ValueError msg => msg end.

Definition result (A : Type) : Type := exn + A.

(** ** Fields *)

(** [Name.__init__]: [not name] is true of the empty string only. *)
Definition Name (name : pystr) : result pystr :=
  match name with
  | [] => inl (ValueError (py "Name is a required field"))
  | _ => inr name
  end.

Definition phone_re : regex := times 10 Digit.

(** [Phone.__init__]; the argument is a [str], so the [isinstance] test
    holds. *)
Definition Phone (phone : pystr) : result pystr :=
  if negb (fullmatch phone_re phone)
  then inl (ValueError (py "Phone number must be 10 digits"))
  else inr phone.

(** ** Dates: [datetime.date] *)

Local Close Scope N_scope.
Local Open Scope Z_scope.

Record date : Type := mkdate { year : Z; month : Z; day : Z }.

Definition MINYEAR : Z := 1.
Definition MAXYEAR : Z := 9999.

Definition is_leap (y : Z) : bool :=
  (y mod 4 =? 0) && (negb (y mod 100 =? 0) || (y mod 400 =? 0)).

Definition DAYS_IN_MONTH : list Z := [31; 28; 31; 30; 31; 30; 31; 31; 30; 31; 30; 31].

(** [month] is in 1..12 wherever this is called. *)
Definition days_in_month (y m : Z) : Z :=
  if (m =? 2) && is_leap y then 29
  else nth (Z.to_nat (m - 1)) DAYS_IN_MONTH 0.

Definition DAYS_BEFORE_MONTH : list Z :=
  [0; 31; 59; 90; 120; 151; 181; 212; 243; 273; 304; 334].

Definition days_before_month (y m : Z) : Z :=
  nth (Z.to_nat (m - 1)) DAYS_BEFORE_MONTH 0
  + (if (2 <? m) && is_leap y then 1 else 0).

Definition days_before_year (y : Z) : Z :=
  let y1 := y - 1 in y1 * 365 + y1 / 4 - y1 / 100 + y1 / 400.

Definition ymd2ord (y m d : Z) : Z :=
  days_before_year y + days_before_month y m + d.

Definition uint_digit (n : N) : codepoint := (0x30 + n)%N.

Fixpoint uint_str (u : Decimal.uint) : pystr :=
  match u with
  | Decimal.Nil => []
  | Decimal.D0 u' => uint_digit 0 :: uint_str u'
  | Decimal.D1 u' => uint_digit 1 :: uint_str u'
  | Decimal.D2 u' => uint_digit 2 :: uint_str u'
  | Decimal.D3 u' => uint_digit 3 :: uint_str u'
  | Decimal.D4 u' => uint_digit 4 :: uint_str u'
  | Decimal.D5 u' => uint_digit 5 :: uint_str u'
  | Decimal.D6 u' => uint_digit 6 :: uint_str u'
  | Decimal.D7 u' => uint_digit 7 :: uint_str u'
  | Decimal.D8 u' => uint_digit 8 :: uint_str u'
  | Decimal.D9 u' => uint_digit 9 :: uint_str u'
  end.

(** [str(n)] of an integer. *)
Definition str_of_int (n : Z) : pystr :=
  match Z.to_int n with
  | Decimal.Pos u => uint_str u
  | Decimal.Neg u => py "-" ++ uint_str u
  end.

(** The checks of the [date] constructor, with the messages of the C
    implementation. *)
Definition date_new (y m d : Z) : result date :=
  if negb ((MINYEAR <=? y) && (y <=? MAXYEAR))
  then inl (ValueError (py "year " ++ str_of_int y ++ py " is out of range"))
  else if negb ((1 <=? m) && (m <=? 12))
  then inl (ValueError (py "month must be in 1..12"))
  else if negb ((1 <=? d) && (d <=? days_in_month y m))
  then inl (ValueError (py "day is out of range for month"))
  else inr (mkdate y m d).

(** [d.replace(year=y)] builds a new date and runs the checks again. *)
Definition replace_year (d : date) (y : Z) : result date :=
  date_new y (month d) (day d).

Definition toordinal (d : date) : Z := ymd2ord (year d) (month d) (day d).

(** [a < b] *)
Definition date_lt (a b : date) : bool :=
  (year a <? year b)
  || ((year a =? year b)
      && ((month a <? month b) || ((month a =? month b) && (day a <? day b)))).

(** [(a - b).days] *)
Definition sub_days (a b : date) : Z := toordinal a - toordinal b.

(** [%m] and [%d]: two digits, zero padded. *)
Definition pad2 (n : Z) : pystr :=
  if n <? 10 then py "0" ++ str_of_int n else str_of_int n.

(** [d.strftime('%Y.%m.%d')]; [%Y] is the year in decimal, which the C
    library does not pad: four digits from year 1000 on. *)
Definition strftime_Ymd (d : date) : pystr :=
  str_of_int (year d) ++ py "." ++ pad2 (month d) ++ py "." ++ pad2 (day d).

(** ** [datetime.strptime(value, "%d.%m.%Y")]

    The format is compiled to the pattern
    [(?P<d>3[0-1]|[1-2]\d|0[1-9]|[1-9]| [1-9])\.(?P<m>1[0-2]|0[1-9]|[1-9])\.(?P<Y>\d\d\d\d)]
    (ignoring case, which changes nothing for these characters), matched at
    the start of the string. *)

Definition chr (s : string) : codepoint :=
  match py s with c :: _ => c | [] => 0%N end.

Definition re_d : regex :=
  Alt (Seq (Lit (chr "3")) (Range (chr "0") (chr "1")))
 (Alt (Seq (Range (chr "1") (chr "2")) Digit)
 (Alt (Seq (Lit (chr "0")) (Range (chr "1") (chr "9")))
 (Alt (Range (chr "1") (chr "9"))
      (Seq (Lit (chr " ")) (Range (chr "1") (chr "9")))))).

Definition re_m : regex :=
  Alt (Seq (Lit (chr "1")) (Range (chr "0") (chr "2")))
 (Alt (Seq (Lit (chr "0")) (Range (chr "1") (chr "9")))
      (Range (chr "1") (chr "9"))).

Definition re_Y : regex := Seq Digit (Seq Digit (Seq Digit Digit)).

Definition re_dot : regex := Lit (chr ".").

(** The part of [s] in front of its suffix [rest]. *)
Definition span (s rest : pystr) : pystr :=
  take (length s - length rest)%nat s.

(** The groups d, m, Y of the first match and the text after it. *)
Definition strptime_groups (s : pystr) : option (pystr * pystr * pystr * pystr) :=
  rmatch re_d s (fun s1 =>
  rmatch re_dot s1 (fun s2 =>
  rmatch re_m s2 (fun s3 =>
  rmatch re_dot s3 (fun s4 =>
  rmatch re_Y s4 (fun s5 =>
    Some (span s s1, span s2 s3, span s4 s5, s5)))))).

Fixpoint lstrip (s : pystr) : pystr :=
  match s with
  | c :: s' => if (c =? chr " ")%N then lstrip s' else s
  | [] => []
  end.

Definition strip (s : pystr) : pystr := rev (lstrip (rev (lstrip s))).

Fixpoint int_digits (acc : Z) (s : pystr) : option Z :=
  match s with
  | [] => Some acc
  | c :: s' =>
      match digit_value c with
      | Some v => int_digits (10 * acc + Z.of_N v) s'
      | None => None
      end
  end.

(** [int(s)] on the texts the groups can hold: digits of any script, with
    blanks around them.  [None] is [ValueError]. *)
Definition py_int (s : pystr) : option Z :=
  match strip s with
  | [] => None
  | t => int_digits 0 t
  end.

(** [None] stands for the [ValueError] of [strptime] (no match, unconverted
    data, or a day that the month does not have); its only caller discards
    the message. *)
Definition strptime (s : pystr) : option date :=
  match strptime_groups s with
  | None => None
  | Some (d, m, y, rest) =>
      match rest with
      | _ :: _ => None
      | [] =>
          match py_int y, py_int m, py_int d with
          | Some y', Some m', Some d' =>
              match date_new y' m' d' with
              | inr x => Some x
              | inl _ => None
              end
          | _, _, _ => None
          end
      end
  end.

(** [Birthday.__init__] *)
Definition Birthday (value : pystr) : result date :=
  match strptime value with
  | Some d => inr d
  | None => inl (ValueError (py "Invalid date format. Example: DD.MM.YYYY"))
  end.

(** ** The store and the effects of a call *)

Local Close Scope Z_scope.

(** A [Record] object: [name.value], the values of [phones] in list order and
    [birthday.value].  The [Phone] objects of a record are built fresh by the
    record's own methods and never changed, so a list of values stands for
    them. *)
Record RecordObj : Type := mkRecord {
  name : pystr;
  phones : list pystr;
  birthday : option date
}.

Definition loc := nat.

(** The objects allocated so far and the book's [data]: a dict from names to
    records, in insertion order. *)
Record world : Type := mkWorld {
  heap : list RecordObj;
  data : list (pystr * loc)
}.

(** A call returns a value or raises, and leaves a world behind in both
    cases.  [None] is a reference to an object that was never allocated, which
    no run of the program forms. *)
Definition M (A : Type) : Type := world -> option (result A * world).

Definition ret {A} (a : A) : M A := fun w => Some (inr a, w).

Definition raise {A} (e : exn) : M A := fun w => Some (inl e, w).

Definition bind {A B} (m : M A) (f : A -> M B) : M B := fun w =>
  match m w with
  | Some (inr a, w') => f a w'
  | Some (inl e, w') => Some (inl e, w')
  | None => None
  end.

Declare Scope py_scope.
Delimit Scope py_scope with py_.
Notation "'let!' x ':=' m 'in' k" := (bind m (fun x => k))
  (at level 10, x name, m at level 100, k at level 200) : py_scope.
Notation "m ';;' k" := (bind m (fun _ => k))
  (at level 100, k at level 200, right associativity) : py_scope.
Local Open Scope py_scope.

(** [try: m except Exception as error: handler(error)] *)
Definition try_except {A} (m : M A) (handler : exn -> M A) : M A := fun w =>
  match m w with
  | Some (inl e, w') => handler e w'
  | other => other
  end.

(** The outcome of a computation that touches no object. *)
Definition lift {A} (r : result A) : M A :=
  match r with
  | inl e => raise e
  | inr a => ret a
  end.

Definition deref (l : loc) : M RecordObj := fun w =>
  match heap w !! l with
  | Some r => Some (inr r, w)
  | None => None
  end.

Definition store (l : loc) (r : RecordObj) : M unit := fun w =>
  match heap w !! l with
  | Some _ => Some (inr tt, mkWorld (<[l := r]> (heap w)) (data w))
  | None => None
  end.

Definition alloc (r : RecordObj) : M loc := fun w =>
  Some (inr (length (heap w)), mkWorld (heap w ++ [r]) (data w)).

Definition get_data : M (list (pystr * loc)) := fun w => Some (inr (data w), w).

Definition set_data (d : list (pystr * loc)) : M unit := fun w =>
  Some (inr tt, mkWorld (heap w) d).

(** ** Dict operations on an insertion-ordered association list *)

Fixpoint dict_get {V} (k : pystr) (d : list (pystr * V)) : option V :=
  match d with
  | [] => None
  | (k', v) :: d' => if str_eqb k' k then Some v else dict_get k d'
  end.

Definition dict_contains {V} (k : pystr) (d : list (pystr * V)) : bool :=
  match dict_get k d with Some _ => true | None => false end.

(** [d[k] = v]: a new key goes last, a known key keeps its place. *)
Fixpoint dict_set {V} (k : pystr) (v : V) (d : list (pystr * V)) : list (pystr * V) :=
  match d with
  | [] => [(k, v)]
  | (k', v') :: d' =>
      if str_eqb k' k then (k', v) :: d' else (k', v') :: dict_set k v d'
  end.

(** [del d[k]] for a key of [d]. *)
Fixpoint dict_del {V} (k : pystr) (d : list (pystr * V)) : list (pystr * V) :=
  match d with
  | [] => []
  | (k', v') :: d' =>
      if str_eqb k' k then d' else (k', v') :: dict_del k d'
  end.

Definition dict_values {V} (d : list (pystr * V)) : list V := map snd d.

Definition dict_keys {V} (d : list (pystr * V)) : list pystr := map fst d.

(** ** class Record *)

(** [Record(name)] allocates the object when the name is accepted. *)
Definition Record_init (name_ : pystr) : M loc :=
  let! n := lift (Name name_) in
  alloc (mkRecord n [] None).

Definition Record_add_phone (self : loc) (new_phone : pystr) : M unit :=
  let! r := deref self in
  if existsb (fun p => str_eqb p new_phone) (phones r)
  then raise (ValueError (py "Phone number already exists"))
  else
    let! p := lift (Phone new_phone) in
    store self (mkRecord (name r) (phones r ++ [p]) (birthday r)).

(** The index of the first phone whose value is [phone]. *)
Fixpoint first_index (phone : pystr) (ps : list pystr) : option nat :=
  match ps with
  | [] => None
  | p :: ps' =>
      if str_eqb p phone then Some O
      else match first_index phone ps' with
           | Some i => Some (S i)
           | None => None
           end
  end.

(** [self.phones.remove(p)] for the first [p] whose value is [phone]: phone
    objects are compared by identity and are distinct objects, so it is that
    very entry that goes. *)
Definition Record_remove_phone (self : loc) (phone : pystr) : M unit :=
  let! r := deref self in
  match first_index phone (phones r) with
  | Some i => store self (mkRecord (name r) (delete i (phones r)) (birthday r))
  | None => raise (ValueError (py "Phone number not found"))
  end.

Definition Record_edit_phone (self : loc) (old_phone new_phone : pystr) : M unit :=
  let! r := deref self in
  match first_index old_phone (phones r) with
  | Some i =>
      let! p := lift (Phone new_phone) in
      store self (mkRecord (name r) (<[i := p]> (phones r)) (birthday r))
  | None => raise (ValueError (py "Old phone number not found"))
  end.

(** The value of the first phone whose value is [phone]. *)
Fixpoint first_value (phone : pystr) (ps : list pystr) : option pystr :=
  match ps with
  | [] => None
  | p :: ps' => if str_eqb p phone then Some p else first_value phone ps'
  end.

Definition Record_find_phone (self : loc) (phone : pystr) : M pystr :=
  let! r := deref self in
  match first_value phone (phones r) with
  | Some v => ret v
  | None => raise (ValueError (py "Phone number not found"))
  end.

Definition Record_add_birthday (self : loc) (birthday_ : pystr) : M unit :=
  let! r := deref self in
  let! b := lift (Birthday birthday_) in
  store self (mkRecord (name r) (phones r) (Some b)).

(** ** class AddressBook *)

Definition AddressBook_add_record (record : loc) : M unit :=
  let! r := deref record in
  let! d := get_data in
  if dict_contains (name r) d
  then raise (ValueError (py "Record with name '" ++ name r ++ py "' already exists"))
  else set_data (dict_set (name r) record d).

Definition AddressBook_find (name_ : pystr) : M (option loc) :=
  let! d := get_data in
  ret (dict_get name_ d).

Definition AddressBook_delete (name_ : pystr) : M unit :=
  let! d := get_data in
  if dict_contains name_ d
  then set_data (dict_del name_ d)
  else raise (ValueError (py "Contact not found")).

(** One element of the list [get_upcoming_birthdays] returns. *)
Record entry : Type := mkEntry {
  entry_name : pystr;
  congratulation_date : pystr
}.

(** The body of the [for] loop over [self.data.values()], with the list built
    so far; [today] is the date the clock gives. *)
Fixpoint upcoming_loop (today : date) (records : list loc)
    (upcoming_birthdays : list entry) : M (list entry) :=
  match records with
  | [] => ret upcoming_birthdays
  | record :: rest =>
      let! r := deref record in
      match birthday r with
      | Some b =>
          let! birthday_this_year := lift (replace_year b (year today)) in
          let! birthday_this_year :=
            (if date_lt birthday_this_year today
             then lift (replace_year birthday_this_year (year today + 1)%Z)
             else ret birthday_this_year) in
          let days_to_birthday := sub_days birthday_this_year today in
          if (0 <=? days_to_birthday)%Z && (days_to_birthday <=? 7)%Z
          then upcoming_loop today rest
                 (upcoming_birthdays
                    ++ [mkEntry (name r) (strftime_Ymd birthday_this_year)])
          else upcoming_loop today rest upcoming_birthdays
      | None => upcoming_loop today rest upcoming_birthdays
      end
  end.

Definition AddressBook_get_upcoming_birthdays (today : date) : M (list entry) :=
  let! d := get_data in
  upcoming_loop today (dict_values d) [].

(** ** The command handlers *)

(** [sep.join(parts)] *)
Fixpoint str_join (sep : pystr) (parts : list pystr) : pystr :=
  match parts with
  | [] => []
  | [x] => x
  | x :: rest => x ++ sep ++ str_join sep rest
  end.

Definition input_error (func : M pystr) : M pystr :=
  try_except func (fun error => ret (str_of_exn error)).

Definition add_contact (args : list pystr) : M pystr :=
  input_error
    (if (length args <? 2)%nat then ret (py "Example: add [name] [phone]")
     else
       match args with
       | [name_; phone] =>
           let! found := AddressBook_find name_ in
           let! rm :=
             match found with
             | None =>
                 let! record := Record_init name_ in
                 AddressBook_add_record record;;
                 ret (record, py "Contact added")
             | Some record => ret (record, py "Contact updated")
             end in
           Record_add_phone (fst rm) phone;;
           ret (snd rm)
       | _ => raise (ValueError (py "too many values to unpack (expected 2)"))
       end).

Definition change_contact (args : list pystr) : M pystr :=
  input_error
    (match args with
     | [name_; old_number; new_number] =>
         let! found := AddressBook_find name_ in
         match found with
         | None => ret (py "Contact does not exist")
         | Some record =>
             Record_edit_phone record old_number new_number;;
             ret (py "Phone changed :)")
         end
     | _ => ret (py "Example: change [name] [old_number] [new_number]")
     end).

Definition add_birthday (args : list pystr) : M pystr :=
  input_error
    (match args with
     | [name_; date_] =>
         let! found := AddressBook_find name_ in
         match found with
         | None => ret (py "Contact does not exist")
         | Some record =>
             Record_add_birthday record date_;;
             ret (py "Birthday added")
         end
     | _ => ret (py "Example: add-birthday [name] [date]")
     end).

Definition birthdays (today : date) : M pystr :=
  input_error
    (let! upcoming := AddressBook_get_upcoming_birthdays today in
     match upcoming with
     | [] => ret (py "No upcoming birthdays.")
     | _ =>
         ret (str_join [10%N]
                (map (fun user => entry_name user ++ py " has a birthday on "
                                    ++ congratulation_date user) upcoming))
     end).

(** ** Rendering: [__str__] *)

(** [Birthday.__str__]: [self.value.strftime("%d.%m.%Y")] *)
Definition Birthday_str (b : date) : pystr :=
  pad2 (day b) ++ py "." ++ pad2 (month b) ++ py "." ++ str_of_int (year b).

(** [Record.__str__]; [str(self.name)] is the name's value. *)
Definition Record_str (r : RecordObj) : pystr :=
  let phones_str := str_join (py "; ") (phones r) in
  let birthday_str :=
    match birthday r with
    | Some b => py ", birthday: " ++ Birthday_str b
    | None => []
    end in
  py "Contact name: " ++ name r ++ py ", phones: " ++ phones_str ++ birthday_str.

(** ** The handlers that return an object *)

(** What a handler hands to [print]: a string, a [Record] or a [Birthday]. *)
Inductive pyval : Type :=
  | VStr (s : pystr)
  | VRecord (record : loc)
  | VBirthday (b : date).

(** [str(v)], as [print] takes it. *)
Definition str_of_val (v : pyval) : M pystr :=
  match v with
  | VStr s => ret s
  | VRecord record => let! r := deref record in ret (Record_str r)
  | VBirthday b => ret (Birthday_str b)
  end.

(** [input_error] around a handler that may return an object. *)
Definition input_error_val (func : M pyval) : M pyval :=
  try_except func (fun error => ret (VStr (str_of_exn error))).

Definition show_phone (args : list pystr) : M pyval :=
  input_error_val
    (match args with
     | [name_] =>
         let! found := AddressBook_find name_ in
         match found with
         | None => ret (VStr (py "Contact does not exist"))
         | Some record => ret (VRecord record)
         end
     | _ => ret (VStr (py "Example: phone [name]"))
     end).

(** [record.birthday or "..."]: a [Birthday] object is true. *)
Definition show_birthday (args : list pystr) : M pyval :=
  input_error_val
    (match args with
     | [name_] =>
         let! found := AddressBook_find name_ in
         match found with
         | None => ret (VStr (py "Contact does not exist"))
         | Some record =>
             let! r := deref record in
             match birthday r with
             | Some b => ret (VBirthday b)
             | None => ret (VStr (py "Birthday not added to this contact"))
             end
         end
     | _ => ret (VStr (py "Example: show-birthday [name]"))
     end).

(** ** [parse_input] *)

(** The characters [str.isspace] holds of; [split] and [strip] without
    arguments cut at these. *)
Definition whitespace : list codepoint :=
  [ 0x9; 0xa; 0xb; 0xc; 0xd; 0x1c; 0x1d; 0x1e; 0x1f; 0x20; 0x85; 0xa0; 0x1680;
    0x2000; 0x2001; 0x2002; 0x2003; 0x2004; 0x2005; 0x2006; 0x2007; 0x2008;
    0x2009; 0x200a; 0x2028; 0x2029; 0x202f; 0x205f; 0x3000 ]%N.

Definition is_space (c : codepoint) : bool := existsb (N.eqb c) whitespace.

(** [s.split()], with the token read so far: the maximal runs of characters
    that are not whitespace. *)
Fixpoint split_ws (tok : pystr) (s : pystr) : list pystr :=
  match s with
  | [] => match tok with [] => [] | _ => [tok] end
  | c :: s' =>
      if is_space c
      then match tok with
           | [] => split_ws [] s'
           | _ => tok :: split_ws [] s'
           end
      else split_ws (tok ++ [c]) s'
  end.

Definition str_split (s : pystr) : list pystr := split_ws [] s.

Fixpoint lstrip_ws (s : pystr) : pystr :=
  match s with
  | c :: s' => if is_space c then lstrip_ws s' else s
  | [] => []
  end.

(** [s.strip()] *)
Definition str_strip (s : pystr) : pystr := rev (lstrip_ws (rev (lstrip_ws s))).

(** ** The loop of [main] *)



Section Session.

(** [str.lower], taken as it is. *)
Variable lower : pystr -> pystr.

(** [cmd, *args = user_input.split()] raises on an empty list. *)
Definition parse_input (user_input : pystr) : result (pystr * list pystr) :=
  match str_split user_input with
  | [] => inl (ValueError (py "not enough values to unpack (expected at least 1, got 0)"))
  | cmd :: args => inr (lower (str_strip cmd), args)
  end.




End Session.


(** * Specification vocabulary *)

(** ** What a pattern denotes *)

Fixpoint lang (r : regex) (p : pystr) : Prop :=
  match r with
  | Eps => p = []
  | Lit c => p = [c]
  | Range lo hi => exists c, p = [c] /\ ((lo <=? c) && (c <=? hi))%N = true
  | Digit => exists c, p = [c] /\ is_decimal c = true
  | Seq r1 r2 => exists p1 p2, p = p1 ++ p2 /\ lang r1 p1 /\ lang r2 p2
  | Alt r1 r2 => lang r1 p \/ lang r2 p
  end.

(** ** The error kinds of the specification *)

Definition EmptyName : exn := ValueError (py "Name is a required field").
Definition InvalidPhone : exn := ValueError (py "Phone number must be 10 digits").
Definition DuplicatePhone : exn := ValueError (py "Phone number already exists").
Definition PhoneNotFound : exn := ValueError (py "Old phone number not found").
Definition InvalidDateFormat : exn :=
  ValueError (py "Invalid date format. Example: DD.MM.YYYY").
Definition DuplicateName (n : pystr) : exn :=
  ValueError (py "Record with name '" ++ n ++ py "' already exists").
Definition DayOutOfRange : exn := ValueError (py "day is out of range for month").

(** ** Phones *)

(** Ten characters, each a decimal digit of some script. *)
Definition ten_decimal_digits (s : pystr) : bool :=
  (length s =? 10)%nat && forallb is_decimal s.

(** Ten characters, each one of 0..9. *)
Definition ten_ascii_digits (s : pystr) : bool :=
  (length s =? 10)%nat && forallb is_ascii_digit s.

(** ١٢٣٤٥٦٧٨٩٠, in Arabic-Indic digits. *)
Definition arabic_indic_phone : pystr :=
  [0x661; 0x662; 0x663; 0x664; 0x665; 0x666; 0x667; 0x668; 0x669; 0x660]%N.

(** ** Birthdays *)

Local Open Scope Z_scope.

(** Every fourth year, except the centuries that 400 does not divide. *)
Definition leap_year (y : Z) : bool :=
  ((y mod 4 =? 0) && negb (y mod 100 =? 0)) || (y mod 400 =? 0).

(** The length of a month of the Gregorian calendar, written the way the
    rhyme has it. *)
Definition month_length (y m : Z) : Z :=
  if (m =? 4) || (m =? 6) || (m =? 9) || (m =? 11) then 30
  else if m =? 2 then (if leap_year y then 29 else 28)
  else 31.

(** Year, month and day of a day of the calendar that [date] covers. *)
Definition real_date (y m d : Z) : Prop :=
  1 <= y <= 9999 /\ 1 <= m <= 12 /\ 1 <= d <= month_length y m.

Definition valid_date (x : date) : Prop := real_date (year x) (month x) (day x).

Definition between (lo hi : string) (c : codepoint) : bool :=
  ((chr lo <=? c) && (c <=? chr hi))%N.

(** The literal shape DD.MM.YYYY: two digits, a dot, two digits, a dot, four
    digits. *)
Definition is_DD_MM_YYYY (s : pystr) : bool :=
  match s with
  | [d1; d2; p1; m1; m2; p2; y1; y2; y3; y4] =>
      forallb is_ascii_digit [d1; d2; m1; m2; y1; y2; y3; y4]
      && (p1 =? chr ".")%N && (p2 =? chr ".")%N
  | _ => false
  end.

(** The texts [%d] accepts: 1..9, 01..09, a blank and 1..9, 10..29 (the
    second digit of any script), 30, 31. *)
Definition is_day_text (t : pystr) : bool :=
  match t with
  | [a] => between "1" "9" a
  | [a; b] =>
      ((a =? chr "3")%N && between "0" "1" b)
      || (between "1" "2" a && is_decimal b)
      || ((a =? chr "0")%N && between "1" "9" b)
      || ((a =? chr " ")%N && between "1" "9" b)
  | _ => false
  end.

(** The texts [%m] accepts: 1..9, 01..09, 10, 11, 12. *)
Definition is_month_text (t : pystr) : bool :=
  match t with
  | [a] => between "1" "9" a
  | [a; b] =>
      ((a =? chr "1")%N && between "0" "2" b)
      || ((a =? chr "0")%N && between "1" "9" b)
  | _ => false
  end.

(** The texts [%Y] accepts: four decimal digits. *)
Definition is_year_text (t : pystr) : bool :=
  (length t =? 4)%nat && forallb is_decimal t.

(** The number a group's text denotes: its digits read in base ten, a blank
    counting for nothing. *)
Definition number_of (t : pystr) : Z :=
  fold_left (fun acc c => match digit_value c with
                          | Some v => 10 * acc + Z.of_N v
                          | None => acc
                          end) t 0.

(** ** Records and the book *)

Definition unique_phones (r : RecordObj) : Prop := List.NoDup (phones r).

(** No record of the world has the same phone twice. *)
Definition all_unique (w : world) : Prop := Forall unique_phones (heap w).

(** The book's keys are distinct, and each key is the name of the record
    stored under it. *)
Definition book_ok (w : world) : Prop :=
  List.NoDup (dict_keys (data w))
  /\ forall k l, In (k, l) (data w) ->
       exists r, heap w !! l = Some r /\ name r = k.

(** Some record stored in the book is called [n]. *)
Definition name_stored (w : world) (n : pystr) : Prop :=
  exists k l r, In (k, l) (data w) /\ heap w !! l = Some r /\ name r = n.

(** The records of the book, in the order of [data.values()]. *)
Definition stored_records (w : world) : list RecordObj :=
  omap (fun l => heap w !! l) (dict_values (data w)).

Definition birthdays_valid (w : world) : Prop :=
  forall l r b, In l (dict_values (data w)) -> heap w !! l = Some r ->
    birthday r = Some b -> valid_date b.

(** ** Upcoming birthdays, as the specification words them *)

(** The birthday's month and day in year [y], if that year has such a day. *)
Definition in_year (b : date) (y : Z) : option date :=
  if (1 <=? y) && (y <=? 9999) && (day b <=? month_length y (month b))
  then Some (mkdate y (month b) (day b))
  else None.

(** Month and day of [a] come before those of [b]. *)
Definition earlier_in_year (a b : date) : bool :=
  (month a <? month b) || ((month a =? month b) && (day a <? day b)).

(** The occurrence for reference date [today]: this year's, or next year's
    when this year's fell before [today]. *)
Definition occurrence (b today : date) : option date :=
  match in_year b (year today) with
  | Some o => if earlier_in_year o today then in_year b (year today + 1) else Some o
  | None => None
  end.

(** The entry of one record, if its occurrence is 0 to 7 days away. *)
Definition upcoming_entry (today : date) (r : RecordObj) : option entry :=
  match birthday r with
  | Some b =>
      match occurrence b today with
      | Some o =>
          let days := toordinal o - toordinal today in
          if (0 <=? days) && (days <=? 7)
          then Some (mkEntry (name r) (strftime_Ymd o))
          else None
      | None => None
      end
  | None => None
  end.

(** Every birthday of the book has an occurrence for [today]. *)
Definition occurrences_exist (today : date) (w : world) : Prop :=
  forall r b, In r (stored_records w) -> birthday r = Some b ->
    exists o, occurrence b today = Some o.

Local Close Scope Z_scope.

(** ** Well-formed worlds *)

(** A record as the program builds them: a name that is not empty, phones
    that [Phone] accepted, a birthday that is a day of the calendar. *)
Definition record_ok (r : RecordObj) : Prop :=
  name r <> []
  /\ Forall (fun p => ten_decimal_digits p = true) (phones r)
  /\ (forall b, birthday r = Some b -> valid_date b).

Definition world_ok (w : world) : Prop :=
  book_ok w /\ Forall record_ok (heap w).

(** A token of [split]: not empty, no whitespace in it. *)
Definition is_token (t : pystr) : Prop :=
  t <> [] /\ existsb is_space t = false.

(** The uncaught exception of a line with no token. *)
Definition NothingToUnpack : exn :=
  ValueError (py "not enough values to unpack (expected at least 1, got 0)").


(** The ASCII digit for [k] in 0..9. *)
Definition digit_char (k : Z) : codepoint := Z.to_N (48 + k).

(** The [n] integers from [lo] on. *)
Fixpoint zrange (lo : Z) (n : nat) : list Z :=
  match n with
  | O => []
  | S n' => lo :: zrange (lo + 1) n'
  end.

(** ** Worlds used as examples *)

Definition empty_world : world := mkWorld [] [].

(** The world a computation leaves. *)
Definition after {A} (m : M A) (w : world) : world :=
  match m w with
  | Some (_, w') => w'
  | None => w
  end.

Definition alice : pystr := py "Alice".
Definition bob : pystr := py "Bob".
Definition phone_a : pystr := py "0123456789".
Definition phone_b : pystr := py "0999999999".

(** After [add Alice 0123456789]. *)
Definition world_alice : world := after (add_contact [alice; phone_a]) empty_world.

(** After [add Alice 0999999999] as well. *)
Definition world_alice2 : world := after (add_contact [alice; phone_b]) world_alice.

(** Alice, born 01.03.1990, and Bob, born 29.02.2024. *)
Definition world_leap_day : world :=
  after (add_birthday [bob; py "29.02.2024"])
    (after (add_contact [bob; phone_b])
       (after (add_birthday [alice; py "01.03.1990"]) world_alice)).

(** Alice, born 01.01.1990. *)
Definition world_new_year : world :=
  after (add_birthday [alice; py "01.01.1990"]) world_alice.

(** * Properties *)

(** ** Strings and dicts *)

Lemma str_eqb_eq (a b : pystr) : str_eqb a b = true <-> a = b.
Proof.
  revert b; induction a as [|x a IH]; intros [|y b]; simpl; try (split; congruence).
  rewrite andb_true_iff, N.eqb_eq, IH. split.
  - intros [-> ->]; reflexivity.
  - intros [= -> ->]; auto.
Qed.

Lemma str_eqb_refl (a : pystr) : str_eqb a a = true.
Proof. apply str_eqb_eq; reflexivity. Qed.

Lemma str_eqb_neq (a b : pystr) : str_eqb a b = false <-> a <> b.
Proof.
  rewrite <- not_true_iff_false, str_eqb_eq. reflexivity.
Qed.

Lemma existsb_str_eqb (p : pystr) (ps : list pystr) :
  existsb (fun q => str_eqb q p) ps = true <-> In p ps.
Proof.
  rewrite existsb_exists. split.
  - intros (q & Hq & E). apply str_eqb_eq in E. subst; auto.
  - intros H. exists p. split; [auto | apply str_eqb_refl].
Qed.

Lemma dict_get_None {V} (k : pystr) (d : list (pystr * V)) :
  dict_get k d = None <-> ~ In k (dict_keys d).
Proof.
  induction d as [|[k' v] d IH]; simpl.
  - tauto.
  - destruct (str_eqb k' k) eqn:E.
    + apply str_eqb_eq in E. subst. split; [discriminate | tauto].
    + apply str_eqb_neq in E. rewrite IH. tauto.
Qed.

Lemma dict_get_In {V} (k : pystr) (v : V) (d : list (pystr * V)) :
  dict_get k d = Some v -> In (k, v) d.
Proof.
  induction d as [|[k' v'] d IH]; simpl; [discriminate|].
  destruct (str_eqb k' k) eqn:E.
  - apply str_eqb_eq in E. intros [= ->]. subst. auto.
  - auto.
Qed.

Lemma dict_contains_keys {V} (k : pystr) (d : list (pystr * V)) :
  dict_contains k d = true <-> In k (dict_keys d).
Proof.
  unfold dict_contains. destruct (dict_get k d) eqn:E.
  - split; [intros _ | reflexivity].
    apply dict_get_In in E. apply (in_map fst) in E. exact E.
  - apply dict_get_None in E. split; [discriminate | tauto].
Qed.

Lemma dict_set_fresh {V} (k : pystr) (v : V) (d : list (pystr * V)) :
  dict_get k d = None -> dict_set k v d = d ++ [(k, v)].
Proof.
  induction d as [|[k' v'] d IH]; simpl; [reflexivity|].
  destruct (str_eqb k' k); [discriminate|].
  intros H. rewrite IH by exact H. reflexivity.
Qed.

Lemma dict_get_app_fresh {V} (k : pystr) (v : V) (d : list (pystr * V)) :
  dict_get k d = None -> dict_get k (d ++ [(k, v)]) = Some v.
Proof.
  induction d as [|[k' v'] d IH]; simpl.
  - rewrite str_eqb_refl. reflexivity.
  - destruct (str_eqb k' k); [discriminate | exact IH].
Qed.

Lemma dict_keys_del_subset {V} (k x : pystr) (d : list (pystr * V)) :
  In x (dict_keys (dict_del k d)) -> In x (dict_keys d).
Proof.
  induction d as [|[k' v'] d IH]; simpl; [tauto|].
  destruct (str_eqb k' k); simpl; tauto.
Qed.

Lemma dict_del_NoDup {V} (k : pystr) (d : list (pystr * V)) :
  List.NoDup (dict_keys d) -> List.NoDup (dict_keys (dict_del k d)).
Proof.
  induction d as [|[k' v'] d IH]; simpl; [auto|].
  intros H. apply NoDup_cons_iff in H as [Hn Hd].
  destruct (str_eqb k' k); [exact Hd|].
  simpl. apply NoDup_cons_iff. split; [|auto].
  intros Hin. apply Hn. eapply dict_keys_del_subset; eauto.
Qed.

(** ** The matcher against what patterns denote *)

Lemma rmatch_sound {A} (r : regex) : forall (s : pystr) (k : pystr -> option A) (a : A),
  rmatch r s k = Some a ->
  exists p rest, s = p ++ rest /\ lang r p /\ k rest = Some a.
Proof.
  induction r as [|c|lo hi| |r1 IH1 r2 IH2|r1 IH1 r2 IH2]; intros s k a H; simpl in *.
  - exists [], s. auto.
  - destruct s as [|x s]; simpl in H; [discriminate|].
    destruct (N.eqb_spec c x); [|discriminate]. subst.
    exists [x], s. auto.
  - destruct s as [|x s]; simpl in H; [discriminate|].
    destruct ((lo <=? x)%N && (x <=? hi)%N) eqn:E; [|discriminate].
    exists [x], s. split; [reflexivity|]. split; [exists x; auto | exact H].
  - destruct s as [|x s]; simpl in H; [discriminate|].
    destruct (is_decimal x) eqn:E; [|discriminate].
    exists [x], s. split; [reflexivity|]. split; [exists x; auto | exact H].
  - apply IH1 in H as (p1 & rest1 & -> & L1 & H).
    apply IH2 in H as (p2 & rest2 & -> & L2 & H).
    exists (p1 ++ p2), rest2. rewrite <- app_assoc. split; [reflexivity|].
    split; [exists p1, p2; auto | exact H].
  - destruct (rmatch r1 s k) as [a'|] eqn:E.
    + injection H as ->. apply IH1 in E as (p & rest & -> & L & H).
      exists p, rest. auto.
    + apply IH2 in H as (p & rest & -> & L & H). exists p, rest. auto.
Qed.

Lemma rmatch_complete {A} (r : regex) : forall (p rest : pystr) (k : pystr -> option A) (a : A),
  lang r p -> k rest = Some a -> exists a', rmatch r (p ++ rest) k = Some a'.
Proof.
  induction r as [|c|lo hi| |r1 IH1 r2 IH2|r1 IH1 r2 IH2]; intros p rest k a L H; simpl in *.
  - subst. eauto.
  - subst. simpl. rewrite N.eqb_refl. eauto.
  - destruct L as (c & -> & E). simpl. rewrite E. eauto.
  - destruct L as (c & -> & E). simpl. rewrite E. eauto.
  - destruct L as (p1 & p2 & -> & L1 & L2).
    destruct (IH2 p2 rest k a L2 H) as (a2 & H2).
    rewrite <- app_assoc.
    exact (IH1 p1 (p2 ++ rest) (fun s' => rmatch r2 s' k) a2 L1 H2).
  - destruct (rmatch r1 (p ++ rest) k) as [a'|] eqn:E; [eauto|].
    destruct L as [L|L].
    + destruct (IH1 p rest k a L H) as (a1 & H1). congruence.
    + eauto.
Qed.

Lemma fullmatch_lang (r : regex) (s : pystr) : fullmatch r s = true <-> lang r s.
Proof.
  unfold fullmatch. split.
  - destruct (rmatch r s _) as [[]|] eqn:E; [intros _ | discriminate].
    apply rmatch_sound in E as (p & rest & -> & L & H).
    destruct rest; [|discriminate]. rewrite app_nil_r. exact L.
  - intros L.
    destruct (rmatch_complete r s [] (fun rest => match rest with [] => Some tt | _ => None end) tt L eq_refl)
      as (a' & E).
    rewrite app_nil_r in E. rewrite E. reflexivity.
Qed.

Lemma lang_times_Digit (n : nat) (p : pystr) :
  lang (times n Digit) p <-> length p = n /\ forallb is_decimal p = true.
Proof.
  revert p; induction n as [|n IH]; intros p; simpl.
  - split.
    + intros ->. auto.
    + intros [H _]. destruct p; [reflexivity | discriminate].
  - split.
    + intros (p1 & p2 & -> & (c & -> & E) & L). apply IH in L as [Hl Hf].
      simpl. rewrite E, Hf, Hl. auto.
    + intros [Hl Hf]. destruct p as [|c p]; [discriminate|].
      simpl in *. apply andb_true_iff in Hf as [E Hf].
      exists [c], p. split; [reflexivity|]. split; [exists c; auto|].
      apply IH. split; [lia | exact Hf].
Qed.

Lemma phone_re_ten_decimal_digits (s : pystr) :
  fullmatch phone_re s = ten_decimal_digits s.
Proof.
  apply eq_true_iff_eq. rewrite fullmatch_lang. unfold phone_re.
  rewrite lang_times_Digit. unfold ten_decimal_digits.
  rewrite andb_true_iff, Nat.eqb_eq. reflexivity.
Qed.

Lemma ascii_digit_is_decimal (c : codepoint) :
  is_ascii_digit c = true -> is_decimal c = true.
Proof.
  unfold is_ascii_digit, is_decimal, digit_value. intros H.
  apply andb_true_iff in H as [H1 H2].
  apply N.leb_le in H1, H2.
  assert (E : in_run c 0x30%N = true).
  { unfold in_run. apply andb_true_iff. split; [apply N.leb_le | apply N.ltb_lt]; lia. }
  unfold Nd_zeros. simpl List.find. rewrite E. reflexivity.
Qed.

(** C3, as amended.  [Phone] accepts a string exactly when it is made of ten
    decimal digits in the sense of [\d] (the ASCII digits or those of any
    other script) and returns it unchanged; every other string raises
    InvalidPhone.  Ten ASCII digits are always accepted. *)
Theorem Phone_accepts_ten_decimal_digits : forall s : pystr,
  Phone s = (if ten_decimal_digits s then inr s else inl InvalidPhone)
  /\ (ten_ascii_digits s = true -> Phone s = inr s).
Proof.
  intros s.
  assert (E : Phone s = if ten_decimal_digits s then inr s else inl InvalidPhone).
  { unfold Phone. rewrite phone_re_ten_decimal_digits.
    destruct (ten_decimal_digits s); reflexivity. }
  split; [exact E|].
  intros H. rewrite E.
  replace (ten_decimal_digits s) with true; [reflexivity|].
  symmetry. unfold ten_ascii_digits, ten_decimal_digits in *.
  apply andb_true_iff in H as [Hl Hf]. rewrite Hl. simpl.
  apply forallb_forall. intros c Hc.
  apply ascii_digit_is_decimal. rewrite forallb_forall in Hf. auto.
Qed.

(** C3, as stated, fails: ten Arabic-Indic digits make a phone, and they are
    not ASCII digits. *)
Lemma Phone_accepts_non_ascii_digits :
  Phone arabic_indic_phone = inr arabic_indic_phone
  /\ ten_ascii_digits arabic_indic_phone = false.
Proof. split; vm_compute; reflexivity. Qed.

(** ** The texts of the three groups *)

Ltac break_lang :=
  repeat match goal with
  | H : _ \/ _ |- _ => destruct H
  | H : exists _, _ |- _ => destruct H
  | H : _ /\ _ |- _ => destruct H
  end; subst.

Ltac solve_text :=
  cbn [app]; cbv beta iota delta [is_day_text is_month_text between];
  repeat match goal with
  | H : _ = true |- _ => rewrite H
  end;
  rewrite ?N.eqb_refl, ?andb_true_l, ?orb_true_l, ?orb_true_r; reflexivity.

Lemma lang_re_d (t : pystr) : lang re_d t <-> is_day_text t = true.
Proof.
  unfold re_d. cbn [lang]. split.
  - intros H. break_lang; solve_text.
  - destruct t as [|a [|b [|c t]]]; cbv beta iota delta [is_day_text between]; try discriminate.
    + intros H. do 3 right. left. exists a. auto.
    + intros H. repeat (apply orb_true_iff in H as [H|H]);
        apply andb_true_iff in H as [H1 H2].
      * apply N.eqb_eq in H1. subst a. left. exists [chr "3"], [b].
        repeat split; eauto.
      * right. left. exists [a], [b]. repeat split; eauto.
      * apply N.eqb_eq in H1. subst a. do 2 right. left. exists [chr "0"], [b].
        repeat split; eauto.
      * apply N.eqb_eq in H1. subst a. do 4 right. exists [chr " "], [b].
        repeat split; eauto.
Qed.

Lemma lang_re_m (t : pystr) : lang re_m t <-> is_month_text t = true.
Proof.
  unfold re_m. cbn [lang]. split.
  - intros H. break_lang; solve_text.
  - destruct t as [|a [|b [|c t]]]; cbv beta iota delta [is_month_text between]; try discriminate.
    + intros H. do 2 right. exists a. auto.
    + intros H. repeat (apply orb_true_iff in H as [H|H]);
        apply andb_true_iff in H as [H1 H2];
        apply N.eqb_eq in H1; subst a.
      * left. exists [chr "1"], [b]. repeat split; eauto.
      * right. left. exists [chr "0"], [b]. repeat split; eauto.
Qed.

Lemma lang_re_Y (t : pystr) : lang re_Y t <-> is_year_text t = true.
Proof.
  change re_Y with (Seq Digit (Seq Digit (Seq Digit Digit))).
  unfold is_year_text. rewrite andb_true_iff, Nat.eqb_eq.
  rewrite <- (lang_times_Digit 4 t). simpl. split.
  - intros (p1 & p2 & -> & L1 & p3 & p4 & -> & L2 & p5 & p6 & -> & L3 & L4).
    exists p1, (p3 ++ p5 ++ p6). repeat split; auto.
    exists p3, (p5 ++ p6). repeat split; auto.
    exists p5, p6. repeat split; auto.
    exists p6, []. rewrite app_nil_r. auto.
  - intros (p1 & p2 & -> & L1 & p3 & p4 & -> & L2 & p5 & p6 & -> & L3 & p7 & p8 & -> & L4 & ->).
    rewrite app_nil_r.
    exists p1, (p3 ++ p5 ++ p7). repeat split; auto.
    exists p3, (p5 ++ p7). repeat split; auto.
    exists p5, p7. auto.
Qed.

Lemma dot_not_decimal : is_decimal (chr ".") = false.
Proof. reflexivity. Qed.

Lemma day_text_no_dot (t : pystr) : is_day_text t = true -> ~ In (chr ".") t.
Proof.
  intros H Hin.
  destruct t as [|a [|b [|c t]]]; try discriminate; simpl in Hin;
    repeat (destruct Hin as [Hin|Hin]; [subst|]); try contradiction;
    unfold is_day_text in H.
  - vm_compute in H. discriminate H.
  - vm_compute in H. discriminate H.
  - change (between "0" "1" (chr ".")) with false in H.
    change (between "1" "9" (chr ".")) with false in H.
    rewrite dot_not_decimal in H.
    rewrite !andb_false_r in H. discriminate H.
Qed.

Lemma month_text_no_dot (t : pystr) : is_month_text t = true -> ~ In (chr ".") t.
Proof.
  intros H Hin.
  destruct t as [|a [|b [|c t]]]; try discriminate; simpl in Hin;
    repeat (destruct Hin as [Hin|Hin]; [subst|]); try contradiction;
    unfold is_month_text in H.
  - vm_compute in H. discriminate H.
  - vm_compute in H. discriminate H.
  - change (between "0" "2" (chr ".")) with false in H.
    change (between "1" "9" (chr ".")) with false in H.
    rewrite !andb_false_r in H. discriminate H.
Qed.

Lemma split_at_separator {A} (c : A) (p p' r r' : list A) :
  ~ In c p -> ~ In c p' -> p ++ c :: r = p' ++ c :: r' -> p = p' /\ r = r'.
Proof.
  revert p'; induction p as [|x p IH]; intros [|y p'] Hp Hp' E; simpl in *.
  - injection E as ->. auto.
  - injection E as <- _. tauto.
  - injection E as -> _. tauto.
  - injection E as -> E. destruct (IH p') as [-> ->]; auto.
Qed.

Lemma span_app (p rest : pystr) : span (p ++ rest) rest = p.
Proof.
  unfold span. rewrite length_app.
  replace (length p + length rest - length rest)%nat with (length p) by lia.
  apply take_app_length.
Qed.

(** ** [strptime]: the groups of a match *)

Lemma strptime_groups_sound (s d m y rest : pystr) :
  strptime_groups s = Some (d, m, y, rest) ->
  s = d ++ chr "." :: m ++ chr "." :: y ++ rest
  /\ is_day_text d = true /\ is_month_text m = true /\ is_year_text y = true.
Proof.
  unfold strptime_groups, re_dot. intros H.
  apply rmatch_sound in H as (p1 & s1 & -> & L1 & H).
  apply rmatch_sound in H as (q1 & s2 & -> & -> & H).
  apply rmatch_sound in H as (p2 & s3 & -> & L2 & H).
  apply rmatch_sound in H as (q2 & s4 & -> & -> & H).
  apply rmatch_sound in H as (p3 & s5 & -> & L3 & H).
  rewrite !span_app in H. injection H as <- <- <- <-.
  apply lang_re_d in L1. apply lang_re_m in L2. apply lang_re_Y in L3.
  repeat split; auto.
Qed.

Lemma strptime_groups_some (d m y : pystr) :
  is_day_text d = true -> is_month_text m = true -> is_year_text y = true ->
  exists g, strptime_groups (d ++ chr "." :: m ++ chr "." :: y) = Some g.
Proof.
  intros Hd Hm Hy.
  apply lang_re_d in Hd. apply lang_re_m in Hm. apply lang_re_Y in Hy.
  unfold strptime_groups.
  set (s := d ++ chr "." :: m ++ chr "." :: y).
  set (s2 := m ++ chr "." :: y).
  pose (k5 := fun s5 : pystr => Some (span s (chr "." :: s2), span s2 (chr "." :: y), span y s5, s5)).
  destruct (rmatch_complete re_Y y [] k5 _ Hy eq_refl) as (a5 & E5).
  rewrite app_nil_r in E5.
  pose (k4 := fun s4 : pystr => rmatch re_Y s4 (fun s5 =>
                Some (span s (chr "." :: s2), span s2 (chr "." :: s4), span s4 s5, s5))).
  destruct (rmatch_complete re_dot [chr "."] y k4 a5 eq_refl E5) as (a4 & E4).
  pose (k3 := fun s3 : pystr => rmatch re_dot s3 (fun s4 => rmatch re_Y s4 (fun s5 =>
                Some (span s (chr "." :: s2), span s2 s3, span s4 s5, s5)))).
  destruct (rmatch_complete re_m m (chr "." :: y) k3 a4 Hm E4) as (a3 & E3).
  pose (k2 := fun s2' : pystr => rmatch re_m s2' (fun s3 =>
                rmatch re_dot s3 (fun s4 => rmatch re_Y s4 (fun s5 =>
                Some (span s (chr "." :: s2'), span s2' s3, span s4 s5, s5))))).
  destruct (rmatch_complete re_dot [chr "."] s2 k2 a3 eq_refl E3) as (a2 & E2).
  pose (k1 := fun s1 : pystr => rmatch re_dot s1 (fun s2' => rmatch re_m s2' (fun s3 =>
                rmatch re_dot s3 (fun s4 => rmatch re_Y s4 (fun s5 =>
                Some (span s s1, span s2' s3, span s4 s5, s5)))))).
  destruct (rmatch_complete re_d d (chr "." :: s2) k1 a2 Hd E2) as (a1 & E1).
  exists a1. exact E1.
Qed.

Lemma strptime_groups_complete (d m y : pystr) :
  is_day_text d = true -> is_month_text m = true -> is_year_text y = true ->
  strptime_groups (d ++ chr "." :: m ++ chr "." :: y) = Some (d, m, y, []).
Proof.
  intros Hd Hm Hy.
  destruct (strptime_groups_some d m y Hd Hm Hy) as ([[[d' m'] y'] rest'] & E).
  rewrite E.
  apply strptime_groups_sound in E as (E & Hd' & Hm' & Hy').
  apply split_at_separator in E as [<- E];
    [| apply day_text_no_dot; assumption | apply day_text_no_dot; assumption].
  apply split_at_separator in E as [<- E];
    [| apply month_text_no_dot; assumption | apply month_text_no_dot; assumption].
  unfold is_year_text in Hy, Hy'.
  apply andb_true_iff in Hy as [Hy _]. apply andb_true_iff in Hy' as [Hy' _].
  apply Nat.eqb_eq in Hy, Hy'.
  assert (El : length y = length (y' ++ rest')) by (rewrite <- E; reflexivity).
  rewrite length_app in El.
  destruct rest'; [|simpl in El; lia].
  rewrite app_nil_r in E. subst. reflexivity.
Qed.

(** ** [int] on the texts of the groups *)

Lemma int_digits_fold (t : pystr) : forall acc : Z,
  forallb is_decimal t = true ->
  int_digits acc t =
    Some (fold_left (fun a c => match digit_value c with
                                | Some v => 10 * a + Z.of_N v
                                | None => a
                                end) t acc)%Z.
Proof.
  induction t as [|c t IH]; intros acc H; simpl in *; [reflexivity|].
  apply andb_true_iff in H as [Hc Ht]. unfold is_decimal in Hc.
  destruct (digit_value c); [|discriminate]. apply IH. exact Ht.
Qed.

Lemma decimal_not_blank (c : codepoint) : is_decimal c = true -> (c =? chr " ")%N = false.
Proof.
  intros H. destruct (N.eqb_spec c (chr " ")) as [->|]; [|reflexivity].
  discriminate H.
Qed.

Lemma lstrip_decimal (t : pystr) : forallb is_decimal t = true -> lstrip t = t.
Proof.
  destruct t as [|c t]; simpl; [reflexivity|].
  intros H. apply andb_true_iff in H as [Hc _].
  rewrite (decimal_not_blank c Hc). reflexivity.
Qed.

Lemma forallb_rev {A} (f : A -> bool) (l : list A) :
  forallb f l = true -> forallb f (rev l) = true.
Proof.
  rewrite !forallb_forall. intros H x Hx. apply H. apply in_rev. exact Hx.
Qed.

Lemma strip_decimal (t : pystr) : forallb is_decimal t = true -> strip t = t.
Proof.
  intros H. unfold strip. rewrite (lstrip_decimal t H).
  rewrite (lstrip_decimal (rev t) (forallb_rev _ _ H)). apply rev_involutive.
Qed.

Lemma py_int_decimal (t : pystr) :
  t <> [] -> forallb is_decimal t = true -> py_int t = Some (number_of t).
Proof.
  intros Hne H. unfold py_int. rewrite (strip_decimal t H).
  destruct t as [|c t]; [congruence|].
  apply int_digits_fold. exact H.
Qed.

Lemma between_ascii_digit (lo hi : string) (c : codepoint) :
  is_ascii_digit (chr lo) = true -> is_ascii_digit (chr hi) = true ->
  between lo hi c = true -> is_ascii_digit c = true.
Proof.
  unfold between, is_ascii_digit. rewrite !andb_true_iff, !N.leb_le. lia.
Qed.

Lemma between_decimal (lo hi : string) (c : codepoint) :
  is_ascii_digit (chr lo) = true -> is_ascii_digit (chr hi) = true ->
  between lo hi c = true -> is_decimal c = true.
Proof.
  intros Hlo Hhi H. apply ascii_digit_is_decimal.
  exact (between_ascii_digit lo hi c Hlo Hhi H).
Qed.

Lemma py_int_blank_digit (c : codepoint) :
  is_decimal c = true -> py_int [chr " "; c] = Some (number_of [chr " "; c]).
Proof.
  intros H. unfold py_int, strip. cbn [lstrip]. rewrite N.eqb_refl.
  rewrite (decimal_not_blank c H). cbn [rev app lstrip].
  rewrite (decimal_not_blank c H). cbn [rev app].
  unfold number_of. cbn [fold_left int_digits].
  change (digit_value (chr " ")) with (@None N).
  unfold is_decimal in H. destruct (digit_value c); [reflexivity | discriminate].
Qed.

Ltac between_to_decimal :=
  repeat match goal with
  | H : between ?lo ?hi ?c = true |- _ =>
      apply (between_decimal lo hi c eq_refl eq_refl) in H
  end.

Ltac all_decimal :=
  apply py_int_decimal; [discriminate|];
  cbn [forallb];
  repeat match goal with
  | H : is_decimal _ = true |- _ => rewrite H
  end;
  reflexivity.

Lemma py_int_day_text (t : pystr) :
  is_day_text t = true -> py_int t = Some (number_of t).
Proof.
  destruct t as [|a [|b [|c t]]]; cbv beta iota delta [is_day_text]; try discriminate.
  - intros H. between_to_decimal. all_decimal.
  - intros H. repeat (apply orb_true_iff in H as [H|H]);
      apply andb_true_iff in H as [H1 H2]; between_to_decimal.
    + apply N.eqb_eq in H1. subst a. all_decimal.
    + all_decimal.
    + apply N.eqb_eq in H1. subst a. all_decimal.
    + apply N.eqb_eq in H1. subst a. apply py_int_blank_digit. exact H2.
Qed.

Lemma py_int_month_text (t : pystr) :
  is_month_text t = true -> py_int t = Some (number_of t).
Proof.
  destruct t as [|a [|b [|c t]]]; cbv beta iota delta [is_month_text]; try discriminate.
  - intros H. between_to_decimal. all_decimal.
  - intros H. repeat (apply orb_true_iff in H as [H|H]);
      apply andb_true_iff in H as [H1 H2]; between_to_decimal;
      apply N.eqb_eq in H1; subst a; all_decimal.
Qed.

Lemma py_int_year_text (t : pystr) :
  is_year_text t = true -> py_int t = Some (number_of t).
Proof.
  unfold is_year_text. intros H. apply andb_true_iff in H as [Hl Hf].
  apply Nat.eqb_eq in Hl. apply py_int_decimal; [|exact Hf].
  destruct t; [discriminate Hl | discriminate].
Qed.

(** ** The [date] constructor against the calendar *)

Lemma is_leap_leap_year (y : Z) : is_leap y = leap_year y.
Proof.
  unfold is_leap, leap_year.
  destruct (Z.eqb_spec (y mod 4) 0), (Z.eqb_spec (y mod 100) 0),
    (Z.eqb_spec (y mod 400) 0); simpl; try reflexivity; exfalso; Z.div_mod_to_equations; lia.
Qed.

Lemma days_in_month_length (y m : Z) :
  (1 <= m <= 12)%Z -> days_in_month y m = month_length y m.
Proof.
  intros H. unfold days_in_month, month_length. rewrite is_leap_leap_year.
  assert (C : (m = 1 \/ m = 2 \/ m = 3 \/ m = 4 \/ m = 5 \/ m = 6 \/ m = 7
               \/ m = 8 \/ m = 9 \/ m = 10 \/ m = 11 \/ m = 12)%Z) by lia.
  repeat (destruct C as [->|C]); try subst m; simpl;
    try reflexivity; destruct (leap_year y); reflexivity.
Qed.

Lemma date_new_real (y m d : Z) :
  real_date y m d -> date_new y m d = inr (mkdate y m d).
Proof.
  intros (Hy & Hm & Hd). unfold date_new, MINYEAR, MAXYEAR.
  rewrite (days_in_month_length y m Hm).
  replace ((1 <=? y) && (y <=? 9999))%Z with true
    by (symmetry; apply andb_true_iff; split; apply Z.leb_le; lia).
  replace ((1 <=? m) && (m <=? 12))%Z with true
    by (symmetry; apply andb_true_iff; split; apply Z.leb_le; lia).
  replace ((1 <=? d) && (d <=? month_length y m))%Z with true
    by (symmetry; apply andb_true_iff; split; apply Z.leb_le; lia).
  reflexivity.
Qed.

Lemma date_new_inr (y m d : Z) (x : date) :
  date_new y m d = inr x -> real_date y m d /\ x = mkdate y m d.
Proof.
  unfold date_new, MINYEAR, MAXYEAR.
  destruct ((1 <=? y) && (y <=? 9999))%Z eqn:Ey; simpl; [|discriminate].
  destruct ((1 <=? m) && (m <=? 12))%Z eqn:Em; simpl; [|discriminate].
  destruct ((1 <=? d) && (d <=? days_in_month y m))%Z eqn:Ed; simpl; [|discriminate].
  intros [= <-].
  apply andb_true_iff in Ey as [Ey1 Ey2]. apply andb_true_iff in Em as [Em1 Em2].
  apply andb_true_iff in Ed as [Ed1 Ed2].
  apply Z.leb_le in Ey1, Ey2, Em1, Em2, Ed1, Ed2.
  rewrite days_in_month_length in Ed2 by lia.
  unfold real_date. auto.
Qed.

(** ** [strptime] and [Birthday] *)

Lemma strptime_Some (s : pystr) (x : date) :
  strptime s = Some x <->
  exists ds ms ys,
    s = ds ++ chr "." :: ms ++ chr "." :: ys
    /\ is_day_text ds = true /\ is_month_text ms = true /\ is_year_text ys = true
    /\ real_date (number_of ys) (number_of ms) (number_of ds)
    /\ x = mkdate (number_of ys) (number_of ms) (number_of ds).
Proof.
  unfold strptime. split.
  - destruct (strptime_groups s) as [[[[d m] y] rest]|] eqn:E; [|discriminate].
    apply strptime_groups_sound in E as (-> & Hd & Hm & Hy).
    destruct rest; [|discriminate].
    rewrite (py_int_year_text y Hy), (py_int_month_text m Hm), (py_int_day_text d Hd).
    destruct (date_new _ _ _) as [e|x'] eqn:En; [discriminate|].
    intros [= ->]. apply date_new_inr in En as [Hr ->].
    exists d, m, y. rewrite app_nil_r. auto 10.
  - intros (ds & ms & ys & -> & Hd & Hm & Hy & Hr & ->).
    rewrite (strptime_groups_complete ds ms ys Hd Hm Hy).
    rewrite (py_int_year_text ys Hy), (py_int_month_text ms Hm), (py_int_day_text ds Hd).
    rewrite (date_new_real _ _ _ Hr). reflexivity.
Qed.

Lemma Birthday_inr (s : pystr) (x : date) : Birthday s = inr x <-> strptime s = Some x.
Proof.
  unfold Birthday. destruct (strptime s); split; congruence.
Qed.

Lemma Birthday_total (s : pystr) :
  (exists x, Birthday s = inr x) \/ Birthday s = inl InvalidDateFormat.
Proof.
  unfold Birthday. destruct (strptime s); [left; eauto | right; reflexivity].
Qed.

Lemma deref_eq (l : loc) (r : RecordObj) (w : world) :
  heap w !! l = Some r -> deref l w = Some (inr r, w).
Proof. unfold deref. intros ->. reflexivity. Qed.

Lemma add_birthday_failure (self : loc) (s : pystr) (w : world) (r : RecordObj) (e : exn) :
  heap w !! self = Some r -> Birthday s = inl e ->
  Record_add_birthday self s w = Some (inl e, w).
Proof.
  intros Hr He. unfold Record_add_birthday, bind.
  rewrite (deref_eq _ _ _ Hr). rewrite He. reflexivity.
Qed.

(** *** Strings of the literal shape DD.MM.YYYY *)

Lemma digit_value_ascii (c : codepoint) :
  is_ascii_digit c = true -> digit_value c = Some (c - 0x30)%N.
Proof.
  unfold is_ascii_digit, digit_value. intros H.
  apply andb_true_iff in H as [H1 H2]. apply N.leb_le in H1, H2.
  assert (E : in_run c 0x30%N = true).
  { unfold in_run. apply andb_true_iff. split; [apply N.leb_le | apply N.ltb_lt]; lia. }
  unfold Nd_zeros. simpl List.find. rewrite E. reflexivity.
Qed.

Lemma number_of_two_ascii (a b : codepoint) :
  is_ascii_digit a = true -> is_ascii_digit b = true ->
  number_of [a; b] = (10 * (Z.of_N a - 48) + (Z.of_N b - 48))%Z.
Proof.
  intros Ha Hb. unfold number_of. cbn [fold_left].
  rewrite (digit_value_ascii a Ha), (digit_value_ascii b Hb).
  unfold is_ascii_digit in Ha, Hb.
  apply andb_true_iff in Ha as [Ha1 Ha2]. apply andb_true_iff in Hb as [Hb1 Hb2].
  apply N.leb_le in Ha1, Ha2, Hb1, Hb2. lia.
Qed.

Lemma between_true (lo hi : string) (c : codepoint) :
  (chr lo <= c <= chr hi)%N -> between lo hi c = true.
Proof.
  intros [H1 H2]. unfold between. apply andb_true_iff.
  split; apply N.leb_le; assumption.
Qed.

Lemma ascii_bounds (c : codepoint) : is_ascii_digit c = true -> (48 <= c <= 57)%N.
Proof.
  unfold is_ascii_digit. rewrite andb_true_iff, !N.leb_le. tauto.
Qed.

Lemma ascii_day_text (a b : codepoint) :
  is_ascii_digit a = true -> is_ascii_digit b = true ->
  (1 <= number_of [a; b] <= 31)%Z -> is_day_text [a; b] = true.
Proof.
  intros Ha Hb. rewrite (number_of_two_ascii a b Ha Hb). intros H.
  pose proof (ascii_digit_is_decimal b Hb) as Hdb.
  apply ascii_bounds in Ha, Hb.
  assert (C : (a = 48 \/ a = 49 \/ a = 50 \/ a = 51)%N) by lia.
  unfold is_day_text. rewrite Hdb.
  destruct C as [-> | [-> | [-> | ->]]].
  - rewrite (between_true "1" "9" b) by (change (chr "1") with 49%N; change (chr "9") with 57%N; lia).
    rewrite ?orb_true_r. reflexivity.
  - reflexivity.
  - reflexivity.
  - rewrite (between_true "0" "1" b) by (change (chr "0") with 48%N; change (chr "1") with 49%N; lia).
    reflexivity.
Qed.

Lemma ascii_month_text (a b : codepoint) :
  is_ascii_digit a = true -> is_ascii_digit b = true ->
  (1 <= number_of [a; b] <= 12)%Z -> is_month_text [a; b] = true.
Proof.
  intros Ha Hb. rewrite (number_of_two_ascii a b Ha Hb). intros H.
  apply ascii_bounds in Ha, Hb.
  assert (C : (a = 48 \/ a = 49)%N) by lia.
  unfold is_month_text.
  destruct C as [-> | ->].
  - rewrite (between_true "1" "9" b) by (change (chr "1") with 49%N; change (chr "9") with 57%N; lia).
    rewrite ?orb_true_r. reflexivity.
  - rewrite (between_true "0" "2" b) by (change (chr "0") with 48%N; change (chr "2") with 50%N; lia).
    reflexivity.
Qed.

Lemma month_length_le_31 (y m : Z) : (month_length y m <= 31)%Z.
Proof.
  unfold month_length.
  destruct ((m =? 4) || (m =? 6) || (m =? 9) || (m =? 11))%Z; [lia|].
  destruct (m =? 2)%Z; [destruct (leap_year y)|]; lia.
Qed.

Lemma strptime_DD_MM_YYYY (s : pystr) :
  is_DD_MM_YYYY s = true ->
  real_date (number_of (drop 6 s)) (number_of (take 2 (drop 3 s))) (number_of (take 2 s)) ->
  strptime s = Some (mkdate (number_of (drop 6 s)) (number_of (take 2 (drop 3 s)))
                            (number_of (take 2 s))).
Proof.
  destruct s as [|d1 [|d2 [|p1 [|m1 [|m2 [|p2 [|y1 [|y2 [|y3 [|y4 [|z s]]]]]]]]]]];
    try discriminate.
  unfold is_DD_MM_YYYY. cbn [take drop forallb].
  rewrite !andb_true_iff, !N.eqb_eq.
  intros [[(A1 & A2 & A3 & A4 & A5 & A6 & A7 & A8 & _) ->] ->] Hr.
  apply strptime_Some.
  exists [d1; d2], [m1; m2], [y1; y2; y3; y4].
  pose proof Hr as (Hy & Hm & Hd).
  pose proof (month_length_le_31 (number_of [y1; y2; y3; y4]) (number_of [m1; m2])).
  split; [reflexivity|].
  split; [apply ascii_day_text; auto; lia|].
  split; [apply ascii_month_text; auto|].
  split; [|split; [exact Hr | reflexivity]].
  unfold is_year_text. cbn [length forallb].
  rewrite !ascii_digit_is_decimal by assumption. reflexivity.
Qed.

(** C5, as amended.  [Birthday] accepts a string exactly when it reads
    day.month.year, the day written as [%d] takes it (one or two digits, or a
    blank and a digit), the month as [%m] takes it (one or two digits), the
    year with four digits, and the three numbers are a real calendar date; the
    value is that date.  Every other string raises InvalidDateFormat.  A string
    of the literal shape DD.MM.YYYY that is a real date is accepted;
    31.02.2024 and 29.02.2023 are rejected, 29.02.2024 is accepted; a record
    whose [add_birthday] fails is left as it was. *)
Theorem Birthday_accepts_day_month_year :
  (forall (s : pystr) (x : date),
     Birthday s = inr x <->
     exists ds ms ys,
       s = ds ++ chr "." :: ms ++ chr "." :: ys
       /\ is_day_text ds = true /\ is_month_text ms = true /\ is_year_text ys = true
       /\ real_date (number_of ys) (number_of ms) (number_of ds)
       /\ x = mkdate (number_of ys) (number_of ms) (number_of ds))
  /\ (forall s : pystr, (exists x, Birthday s = inr x) \/ Birthday s = inl InvalidDateFormat)
  /\ (forall s : pystr,
        is_DD_MM_YYYY s = true ->
        real_date (number_of (drop 6 s)) (number_of (take 2 (drop 3 s)))
                  (number_of (take 2 s)) ->
        Birthday s = inr (mkdate (number_of (drop 6 s)) (number_of (take 2 (drop 3 s)))
                                 (number_of (take 2 s))))
  /\ Birthday (py "31.02.2024") = inl InvalidDateFormat
  /\ Birthday (py "29.02.2024") = inr (mkdate 2024 2 29)
  /\ Birthday (py "29.02.2023") = inl InvalidDateFormat
  /\ (forall (self : loc) (s : pystr) (w : world) (r : RecordObj) (e : exn),
        heap w !! self = Some r -> Birthday s = inl e ->
        Record_add_birthday self s w = Some (inl e, w)).
Proof.
  split.
  { intros s x. rewrite Birthday_inr. apply strptime_Some. }
  split; [exact Birthday_total|].
  split.
  { intros s Hs Hr. apply Birthday_inr. apply strptime_DD_MM_YYYY; assumption. }
  split; [vm_compute; reflexivity|].
  split; [vm_compute; reflexivity|].
  split; [vm_compute; reflexivity|].
  intros self s w r e. apply add_birthday_failure.
Qed.

(** The amended C5 at work: 01.03.1990 has the literal shape and is a real
    date; [add_birthday] with 31.02.2024 leaves Alice's record alone. *)
Lemma Birthday_accepts_day_month_year_witness :
  Birthday (py "01.03.1990") = inr (mkdate 1990 3 1)
  /\ Record_add_birthday 0 (py "31.02.2024") world_alice = Some (inl InvalidDateFormat, world_alice).
Proof.
  pose proof Birthday_accepts_day_month_year as (_ & _ & H & _ & _ & _ & F).
  split.
  - apply (H (py "01.03.1990")).
    + reflexivity.
    + vm_compute. intuition discriminate.
  - eapply (F 0%nat (py "31.02.2024") world_alice); reflexivity.
Defined.

(** C5, as stated, fails: 1.2.2024 does not have the literal shape DD.MM.YYYY
    (its day and month are single digits), and [Birthday] accepts it. *)
Lemma Birthday_accepts_single_digits :
  Birthday (py "1.2.2024") = inr (mkdate 2024 2 1)
  /\ is_DD_MM_YYYY (py "1.2.2024") = false.
Proof. split; vm_compute; reflexivity. Qed.

(** ** The methods of a record, on a world that holds it *)

Lemma first_index_None (p : pystr) (ps : list pystr) :
  first_index p ps = None <-> ~ In p ps.
Proof.
  induction ps as [|q ps IH]; simpl; [tauto|].
  destruct (str_eqb q p) eqn:E.
  - apply str_eqb_eq in E. split; [discriminate | tauto].
  - apply str_eqb_neq in E. destruct (first_index p ps).
    + split; [discriminate|]. intros H. exfalso.
      assert (N : ~ In p ps) by tauto. apply IH in N. discriminate N.
    + split; [intros _ | reflexivity].
      assert (N : ~ In p ps) by (apply IH; reflexivity). tauto.
Qed.

Lemma first_index_Some (p : pystr) (ps : list pystr) (i : nat) :
  first_index p ps = Some i -> ps !! i = Some p.
Proof.
  revert i; induction ps as [|q ps IH]; intros i; simpl; [discriminate|].
  destruct (str_eqb q p) eqn:E.
  - apply str_eqb_eq in E. intros [= <-]. subst. reflexivity.
  - destruct (first_index p ps); [|discriminate].
    intros [= <-]. simpl. apply IH. reflexivity.
Qed.

Lemma first_index_In (p : pystr) (ps : list pystr) :
  In p ps -> exists i, first_index p ps = Some i.
Proof.
  intros H. destruct (first_index p ps) eqn:E; [eauto|].
  apply first_index_None in E. contradiction.
Qed.

Lemma store_eq (l : loc) (r r' : RecordObj) (w : world) :
  heap w !! l = Some r ->
  store l r' w = Some (inr tt, mkWorld (<[l := r']> (heap w)) (data w)).
Proof. unfold store. intros ->. reflexivity. Qed.

Lemma Record_add_phone_eq (self : loc) (new_phone : pystr) (w : world) (r : RecordObj) :
  heap w !! self = Some r ->
  Record_add_phone self new_phone w =
    if existsb (fun p => str_eqb p new_phone) (phones r)
    then Some (inl DuplicatePhone, w)
    else match Phone new_phone with
         | inl e => Some (inl e, w)
         | inr p =>
             Some (inr tt,
                   mkWorld (<[self := mkRecord (name r) (phones r ++ [p]) (birthday r)]> (heap w))
                           (data w))
         end.
Proof.
  intros Hr. unfold Record_add_phone, bind. rewrite (deref_eq _ _ _ Hr).
  destruct (existsb _ _); [reflexivity|].
  destruct (Phone new_phone); simpl; [reflexivity|].
  rewrite (store_eq _ _ _ _ Hr). reflexivity.
Qed.

Lemma Record_edit_phone_eq (self : loc) (old_phone new_phone : pystr) (w : world)
    (r : RecordObj) :
  heap w !! self = Some r ->
  Record_edit_phone self old_phone new_phone w =
    match first_index old_phone (phones r) with
    | Some i =>
        match Phone new_phone with
        | inl e => Some (inl e, w)
        | inr p =>
            Some (inr tt,
                  mkWorld (<[self := mkRecord (name r) (<[i := p]> (phones r)) (birthday r)]> (heap w))
                          (data w))
        end
    | None => Some (inl PhoneNotFound, w)
    end.
Proof.
  intros Hr. unfold Record_edit_phone, bind. rewrite (deref_eq _ _ _ Hr).
  destruct (first_index _ _); [|reflexivity].
  destruct (Phone new_phone); simpl; [reflexivity|].
  rewrite (store_eq _ _ _ _ Hr). reflexivity.
Qed.

Lemma Record_remove_phone_eq (self : loc) (phone : pystr) (w : world) (r : RecordObj) :
  heap w !! self = Some r ->
  Record_remove_phone self phone w =
    match first_index phone (phones r) with
    | Some i =>
        Some (inr tt,
              mkWorld (<[self := mkRecord (name r) (delete i (phones r)) (birthday r)]> (heap w))
                      (data w))
    | None => Some (inl (ValueError (py "Phone number not found")), w)
    end.
Proof.
  intros Hr. unfold Record_remove_phone, bind. rewrite (deref_eq _ _ _ Hr).
  destruct (first_index _ _); [|reflexivity].
  rewrite (store_eq _ _ _ _ Hr). reflexivity.
Qed.

Lemma Record_add_birthday_eq (self : loc) (s : pystr) (w : world) (r : RecordObj) :
  heap w !! self = Some r ->
  Record_add_birthday self s w =
    match Birthday s with
    | inl e => Some (inl e, w)
    | inr b =>
        Some (inr tt,
              mkWorld (<[self := mkRecord (name r) (phones r) (Some b)]> (heap w)) (data w))
    end.
Proof.
  intros Hr. unfold Record_add_birthday, bind. rewrite (deref_eq _ _ _ Hr).
  destruct (Birthday s); simpl; [reflexivity|].
  rewrite (store_eq _ _ _ _ Hr). reflexivity.
Qed.

Lemma Phone_inr (s p : pystr) : Phone s = inr p -> p = s.
Proof.
  unfold Phone. destruct (negb _); [discriminate|]. intros [= <-]. reflexivity.
Qed.

Lemma Phone_inl (s : pystr) (e : exn) : Phone s = inl e -> e = InvalidPhone.
Proof.
  unfold Phone. destruct (negb _); [|discriminate]. intros [= <-]. reflexivity.
Qed.

(** C7.  On a record of the world: [add_phone] with a value the record
    already has raises DuplicatePhone and changes nothing; with a valid value
    it does not have, it returns and the record's phones are the old sequence
    with the new value appended, everything else as before. *)
Theorem add_phone_duplicate_or_append (w : world) (self : loc) (r : RecordObj) (p : pystr)
    (Hr : heap w !! self = Some r) :
  (In p (phones r) -> Record_add_phone self p w = Some (inl DuplicatePhone, w))
  /\ (~ In p (phones r) -> Phone p = inr p ->
      Record_add_phone self p w =
        Some (inr tt,
              mkWorld (<[self := mkRecord (name r) (phones r ++ [p]) (birthday r)]> (heap w))
                      (data w))).
Proof.
  rewrite (Record_add_phone_eq self p w r Hr). split.
  - intros Hin. apply existsb_str_eqb in Hin. rewrite Hin. reflexivity.
  - intros Hn Hp.
    destruct (existsb _ _) eqn:E; [apply existsb_str_eqb in E; contradiction|].
    rewrite Hp. reflexivity.
Qed.

(** C7 on Alice after her first phone: the same phone again is a duplicate,
    a second phone is appended after the first. *)
Lemma add_phone_duplicate_or_append_witness :
  Record_add_phone 0 phone_a world_alice = Some (inl DuplicatePhone, world_alice)
  /\ Record_add_phone 0 phone_b world_alice =
       Some (inr tt, mkWorld [mkRecord alice [phone_a; phone_b] None] [(alice, 0%nat)]).
Proof.
  split.
  - apply (add_phone_duplicate_or_append world_alice 0%nat
             (mkRecord alice [phone_a] None) phone_a eq_refl).
    left. reflexivity.
  - apply (add_phone_duplicate_or_append world_alice 0%nat
             (mkRecord alice [phone_a] None) phone_b eq_refl).
    + simpl. intros [H|[]]. discriminate H.
    + reflexivity.
Defined.

(** C6.  On a record of the world: [edit_phone] with an old value the record
    does not have raises PhoneNotFound, with an old value it has and a new
    value that [Phone] rejects it raises that rejection, and whenever it
    raises the world, so the record's phone sequence, is what it was. *)
Theorem edit_phone_failure_changes_nothing (w : world) (self : loc) (r : RecordObj)
    (old_phone new_phone : pystr) (Hr : heap w !! self = Some r) :
  (~ In old_phone (phones r) ->
     Record_edit_phone self old_phone new_phone w = Some (inl PhoneNotFound, w))
  /\ (In old_phone (phones r) -> Phone new_phone = inl InvalidPhone ->
        Record_edit_phone self old_phone new_phone w = Some (inl InvalidPhone, w))
  /\ (forall (e : exn) (w' : world),
        Record_edit_phone self old_phone new_phone w = Some (inl e, w') ->
        w' = w /\ heap w' !! self = Some r
        /\ (e = PhoneNotFound \/ e = InvalidPhone)).
Proof.
  rewrite (Record_edit_phone_eq self old_phone new_phone w r Hr).
  split; [|split].
  - intros Hn. apply first_index_None in Hn. rewrite Hn. reflexivity.
  - intros Hin Hp. destruct (first_index_In _ _ Hin) as (i & ->). rewrite Hp. reflexivity.
  - intros e w'. destruct (first_index _ _).
    + destruct (Phone new_phone) eqn:Hp; [|discriminate].
      intros [= <- <-]. apply Phone_inl in Hp. auto.
    + intros [= <- <-]. auto.
Qed.

(** C6 on Alice with her two phones: an unknown old value, and a new value
    that is no phone. *)
Lemma edit_phone_failure_changes_nothing_witness :
  Record_edit_phone 0 (py "0000000000") phone_a world_alice2
    = Some (inl PhoneNotFound, world_alice2)
  /\ Record_edit_phone 0 phone_a (py "12345") world_alice2
    = Some (inl InvalidPhone, world_alice2).
Proof.
  split.
  - apply (edit_phone_failure_changes_nothing world_alice2 0%nat
             (mkRecord alice [phone_a; phone_b] None) (py "0000000000") phone_a eq_refl).
    simpl. intros [H|[H|[]]]; discriminate H.
  - apply (edit_phone_failure_changes_nothing world_alice2 0%nat
             (mkRecord alice [phone_a; phone_b] None) phone_a (py "12345") eq_refl).
    + left. reflexivity.
    + reflexivity.
Defined.

(** ** The book *)

Lemma in_dict_keys {V} (k : pystr) (d : list (pystr * V)) :
  In k (dict_keys d) <-> exists v, In (k, v) d.
Proof.
  unfold dict_keys. rewrite in_map_iff. split.
  - intros ([k' v] & <- & H). eauto.
  - intros (v & H). exists (k, v). auto.
Qed.

Lemma name_stored_key (w : world) (n : pystr) :
  book_ok w -> (name_stored w n <-> In n (dict_keys (data w))).
Proof.
  intros [_ Hok]. rewrite in_dict_keys. split.
  - intros (k & l & r & Hin & Hr & <-).
    destruct (Hok k l Hin) as (r' & Hr' & Hk).
    assert (r' = r) by congruence. subst. eauto.
  - intros (l & Hin). destruct (Hok n l Hin) as (r & Hr & Hn).
    exists n, l, r. auto.
Qed.

Lemma AddressBook_add_record_eq (record : loc) (w : world) (r : RecordObj) :
  heap w !! record = Some r ->
  AddressBook_add_record record w =
    if dict_contains (name r) (data w)
    then Some (inl (DuplicateName (name r)), w)
    else Some (inr tt, mkWorld (heap w) (dict_set (name r) record (data w))).
Proof.
  intros Hr. unfold AddressBook_add_record, bind. rewrite (deref_eq _ _ _ Hr).
  unfold get_data. destruct (dict_contains _ _); reflexivity.
Qed.

Lemma book_ok_insert (w : world) (record : loc) (r : RecordObj) :
  book_ok w -> heap w !! record = Some r -> ~ In (name r) (dict_keys (data w)) ->
  book_ok (mkWorld (heap w) (data w ++ [(name r, record)])).
Proof.
  intros [Hnd Hok] Hr Hn. split; simpl.
  - unfold dict_keys. rewrite map_app. simpl.
    apply List.NoDup_app; [exact Hnd | |].
    + apply List.NoDup_cons; [simpl; tauto | apply List.NoDup_nil].
    + intros x Hx [<-|[]]. contradiction.
  - intros k l Hin. apply in_app_or in Hin as [Hin|[[= <- <-]|[]]]; eauto.
Qed.

(** C8.  In a book whose keys are the names of its records: [add_record] of a
    record whose name some stored record has raises DuplicateName and changes
    nothing; of any other record, it returns and the record is the new last
    entry, under its name; and whichever happens the book still has one
    record per name. *)
Theorem add_record_duplicate_or_insert (w : world) (record : loc) (r : RecordObj)
    (Hok : book_ok w) (Hr : heap w !! record = Some r) :
  (name_stored w (name r) ->
     AddressBook_add_record record w = Some (inl (DuplicateName (name r)), w))
  /\ (~ name_stored w (name r) ->
        AddressBook_add_record record w =
          Some (inr tt, mkWorld (heap w) (data w ++ [(name r, record)]))
        /\ dict_get (name r) (data w ++ [(name r, record)]) = Some record)
  /\ (forall (res : result unit) (w' : world),
        AddressBook_add_record record w = Some (res, w') ->
        book_ok w' /\ List.NoDup (dict_keys (data w'))).
Proof.
  rewrite (AddressBook_add_record_eq record w r Hr).
  rewrite (name_stored_key w (name r) Hok).
  destruct (dict_contains (name r) (data w)) eqn:E.
  - apply dict_contains_keys in E. split; [reflexivity | split; [tauto|]].
    intros res w' [= <- <-]. split; [exact Hok | apply Hok].
  - assert (Hn : ~ In (name r) (dict_keys (data w))).
    { rewrite <- dict_contains_keys. congruence. }
    assert (Hg : dict_get (name r) (data w) = None) by (apply dict_get_None; exact Hn).
    rewrite (dict_set_fresh _ record _ Hg).
    split; [tauto|]. split.
    + intros _. split; [reflexivity | apply dict_get_app_fresh; exact Hg].
    + intros res w' [= <- <-].
      pose proof (book_ok_insert w record r Hok Hr Hn) as H.
      split; [exact H | apply H].
Qed.

(** C8 on the book that holds Alice: a second record called Alice is
    refused, a record called Bob is inserted after her. *)
Lemma add_record_duplicate_or_insert_witness :
  let w := after (Record_init bob) (after (Record_init alice) world_alice) in
  AddressBook_add_record 1 w = Some (inl (DuplicateName alice), w)
  /\ AddressBook_add_record 2 w
     = Some (inr tt, mkWorld (heap w) [(alice, 0%nat); (bob, 2%nat)]).
Proof.
  assert (Hok : book_ok (after (Record_init bob) (after (Record_init alice) world_alice))).
  { split.
    - apply List.NoDup_cons; [simpl; tauto | apply List.NoDup_nil].
    - intros k l [[= <- <-]|[]]. eexists. split; reflexivity. }
  split.
  - apply (add_record_duplicate_or_insert _ 1%nat (mkRecord alice [] None) Hok eq_refl).
    exists alice, 0%nat, (mkRecord alice [phone_a] None).
    split; [left; reflexivity | split; reflexivity].
  - apply (add_record_duplicate_or_insert _ 2%nat (mkRecord bob [] None) Hok eq_refl).
    intros (k & l & r & [[= <- <-]|[]] & Hr & Hn).
    vm_compute in Hr. injection Hr as <-. discriminate Hn.
Defined.

(** ** The [add] command *)

Lemma Name_nonempty (n : pystr) : n <> [] -> Name n = inr n.
Proof. destruct n; [congruence | reflexivity]. Qed.

Lemma lookup_fresh (h : list RecordObj) (r : RecordObj) : (h ++ [r]) !! length h = Some r.
Proof. apply list_lookup_middle. reflexivity. Qed.

Lemma add_contact_new (w : world) (name_ phone : pystr) :
  name_ <> [] -> dict_get name_ (data w) = None ->
  add_contact [name_; phone] w =
    match Phone phone with
    | inl e =>
        Some (inr (str_of_exn e),
              mkWorld (heap w ++ [mkRecord name_ [] None])
                      (data w ++ [(name_, length (heap w))]))
    | inr p =>
        Some (inr (py "Contact added"),
              mkWorld (heap w ++ [mkRecord name_ [p] None])
                      (data w ++ [(name_, length (heap w))]))
    end.
Proof.
  intros Hn Hg.
  unfold add_contact, input_error, try_except. cbn [length Nat.ltb Nat.leb].
  unfold bind at 1. unfold AddressBook_find, bind at 1, get_data, ret at 1.
  rewrite Hg.
  unfold bind at 1, bind at 1, Record_init, bind at 1.
  rewrite (Name_nonempty name_ Hn). cbn [lift]. unfold ret at 1, alloc.
  set (r0 := mkRecord name_ [] None).
  set (w1 := mkWorld (heap w ++ [r0]) (data w)).
  assert (H1 : heap w1 !! length (heap w) = Some r0) by apply lookup_fresh.
  unfold bind at 1.
  rewrite (AddressBook_add_record_eq (length (heap w)) w1 r0 H1).
  cbn [name r0 data w1].
  unfold dict_contains. rewrite Hg. rewrite (dict_set_fresh _ _ _ Hg).
  unfold ret at 1. cbn [fst snd].
  unfold bind at 1.
  match goal with
  | |- context [Record_add_phone ?l ?p ?ww] => rewrite (Record_add_phone_eq l p ww r0 H1)
  end.
  cbn [phones r0 existsb].
  destruct (Phone phone) as [e|p]; [reflexivity|].
  unfold ret. cbn [heap data w1 name birthday app].
  replace (<[length (heap w) := mkRecord name_ [p] None]> (heap w ++ [r0]))
    with (heap w ++ [mkRecord name_ [p] None]); [reflexivity|].
  symmetry. rewrite insert_app_r_alt by lia.
  rewrite Nat.sub_diag. reflexivity.
Qed.

Lemma add_contact_known (w : world) (name_ phone : pystr) (l : loc) :
  dict_get name_ (data w) = Some l ->
  add_contact [name_; phone] w =
    match Record_add_phone l phone w with
    | Some (inl e, w') => Some (inr (str_of_exn e), w')
    | Some (inr _, w') => Some (inr (py "Contact updated"), w')
    | None => None
    end.
Proof.
  intros Hg.
  unfold add_contact, input_error, try_except. cbn [length Nat.ltb Nat.leb].
  unfold bind at 1. unfold AddressBook_find, bind at 1, get_data, ret at 1.
  rewrite Hg. unfold bind at 1, ret at 1. cbn [fst snd]. unfold bind.
  destruct (Record_add_phone l phone w) as [[[e|[]] w']|]; reflexivity.
Qed.

(** C10.  [add] with a name the book does not have (a name is a non-empty
    string) and a phone that [Phone] rejects returns the text of that error,
    and leaves the book with a new last entry for the name: a record with that
    name, no phone and no birthday.  Nothing undoes the insertion. *)
Theorem add_contact_invalid_phone_leaves_record (w : world) (name_ phone : pystr) (e : exn)
    (Hname : name_ <> [])
    (Habsent : dict_get name_ (data w) = None)
    (Hphone : Phone phone = inl e) :
  add_contact [name_; phone] w =
    Some (inr (py "Phone number must be 10 digits"),
          mkWorld (heap w ++ [mkRecord name_ [] None])
                  (data w ++ [(name_, length (heap w))]))
  /\ dict_get name_ (data w ++ [(name_, length (heap w))]) = Some (length (heap w))
  /\ (heap w ++ [mkRecord name_ [] None]) !! length (heap w)
     = Some (mkRecord name_ [] None).
Proof.
  rewrite (add_contact_new w name_ phone Hname Habsent). rewrite Hphone.
  apply Phone_inl in Hphone. subst e.
  split; [reflexivity|]. split.
  - apply dict_get_app_fresh. exact Habsent.
  - apply lookup_fresh.
Qed.

(** C10 in the book that holds Alice: [add Bob 12345] reports the phone error
    and Bob is there, without a phone. *)
Lemma add_contact_invalid_phone_leaves_record_witness :
  add_contact [bob; py "12345"] world_alice =
    Some (inr (py "Phone number must be 10 digits"),
          mkWorld [mkRecord alice [phone_a] None; mkRecord bob [] None]
                  [(alice, 0%nat); (bob, 1%nat)]).
Proof.
  apply (add_contact_invalid_phone_leaves_record world_alice bob (py "12345") InvalidPhone).
  - discriminate.
  - reflexivity.
  - reflexivity.
Defined.

(** C9.  [add Alice 0123456789] on the empty book, then
    [add Alice 0999999999]: the second call returns "Contact updated", the
    record found under Alice has the two phones in that order, and
    [find_phone] returns each of them; location 0 is the one record the two
    calls share. *)
Theorem add_alice_twice :
  add_contact [py "Alice"; py "0123456789"] empty_world
    = Some (inr (py "Contact added"),
            mkWorld [mkRecord (py "Alice") [py "0123456789"] None] [(py "Alice", 0%nat)])
  /\ add_contact [py "Alice"; py "0999999999"]
       (mkWorld [mkRecord (py "Alice") [py "0123456789"] None] [(py "Alice", 0%nat)])
     = Some (inr (py "Contact updated"),
             mkWorld [mkRecord (py "Alice") [py "0123456789"; py "0999999999"] None]
                     [(py "Alice", 0%nat)])
  /\ AddressBook_find (py "Alice")
       (mkWorld [mkRecord (py "Alice") [py "0123456789"; py "0999999999"] None]
                [(py "Alice", 0%nat)])
     = Some (inr (Some 0%nat),
             mkWorld [mkRecord (py "Alice") [py "0123456789"; py "0999999999"] None]
                     [(py "Alice", 0%nat)])
  /\ Record_find_phone 0 (py "0123456789")
       (mkWorld [mkRecord (py "Alice") [py "0123456789"; py "0999999999"] None]
                [(py "Alice", 0%nat)])
     = Some (inr (py "0123456789"),
             mkWorld [mkRecord (py "Alice") [py "0123456789"; py "0999999999"] None]
                     [(py "Alice", 0%nat)])
  /\ Record_find_phone 0 (py "0999999999")
       (mkWorld [mkRecord (py "Alice") [py "0123456789"; py "0999999999"] None]
                [(py "Alice", 0%nat)])
     = Some (inr (py "0999999999"),
             mkWorld [mkRecord (py "Alice") [py "0123456789"; py "0999999999"] None]
                     [(py "Alice", 0%nat)]).
Proof. repeat split; vm_compute; reflexivity. Qed.

(** C2 fails on [edit_phone].  Alice has the phones 0123456789 and
    0999999999, each once; [change Alice 0123456789 0999999999] succeeds and
    her record then has 0999999999 twice. *)
Theorem edit_phone_makes_duplicate :
  heap world_alice2 !! 0%nat = Some (mkRecord alice [phone_a; phone_b] None)
  /\ unique_phones (mkRecord alice [phone_a; phone_b] None)
  /\ Record_edit_phone 0 phone_a phone_b world_alice2
     = Some (inr tt, mkWorld [mkRecord alice [phone_b; phone_b] None] [(alice, 0%nat)])
  /\ change_contact [alice; phone_a; phone_b] world_alice2
     = Some (inr (py "Phone changed :)"),
             mkWorld [mkRecord alice [phone_b; phone_b] None] [(alice, 0%nat)])
  /\ ~ unique_phones (mkRecord alice [phone_b; phone_b] None).
Proof.
  split; [reflexivity|]. split.
  { unfold unique_phones. simpl.
    apply List.NoDup_cons; [|apply List.NoDup_cons; [simpl; tauto | apply List.NoDup_nil]].
    simpl. intros [H|[]]. discriminate H. }
  split; [vm_compute; reflexivity|]. split; [vm_compute; reflexivity|].
  unfold unique_phones. simpl. intros H.
  apply NoDup_cons_iff in H as [H _]. apply H. left. reflexivity.
Qed.

(** ** Upcoming birthdays *)

Local Open Scope Z_scope.

Lemma replace_year_in_year (b : date) (y : Z) (o : date) :
  valid_date b -> in_year b y = Some o -> replace_year b y = inr o.
Proof.
  intros (_ & Hm & Hd). unfold in_year.
  destruct ((1 <=? y) && (y <=? 9999) && (day b <=? month_length y (month b))) eqn:E;
    [|discriminate].
  intros [= <-]. apply date_new_real.
  apply andb_true_iff in E as [E E3]. apply andb_true_iff in E as [E1 E2].
  apply Z.leb_le in E1, E2, E3. unfold real_date. lia.
Qed.

Lemma replace_year_no_such_day (b : date) (y : Z) :
  valid_date b -> in_year b y = None -> exists e, replace_year b y = inl e.
Proof.
  intros (_ & Hm & Hd) H.
  destruct (replace_year b y) as [e|o] eqn:E; [eauto|].
  apply date_new_inr in E as [(Hy & _ & Hd') _].
  unfold in_year in H.
  replace ((1 <=? y) && (y <=? 9999) && (day b <=? month_length y (month b))) with true in H;
    [discriminate|].
  symmetry. rewrite !andb_true_iff, !Z.leb_le. lia.
Qed.

Lemma in_year_fields (b : date) (y : Z) (o : date) :
  in_year b y = Some o -> year o = y /\ month o = month b /\ day o = day b.
Proof.
  unfold in_year. destruct (_ && _); [|discriminate]. intros [= <-]. auto.
Qed.

Lemma in_year_valid (b : date) (y : Z) (o : date) :
  valid_date b -> in_year b y = Some o -> valid_date o.
Proof.
  intros (_ & Hm & Hd). unfold in_year.
  destruct ((1 <=? y) && (y <=? 9999) && (day b <=? month_length y (month b))) eqn:E;
    [|discriminate].
  intros [= <-].
  apply andb_true_iff in E as [E E3]. apply andb_true_iff in E as [E1 E2].
  apply Z.leb_le in E1, E2, E3. unfold valid_date, real_date. simpl. lia.
Qed.

Lemma date_lt_same_year (o today : date) :
  year o = year today -> date_lt o today = earlier_in_year o today.
Proof.
  intros E. unfold date_lt, earlier_in_year. rewrite E, Z.ltb_irrefl, Z.eqb_refl.
  reflexivity.
Qed.

(** The two [replace] calls of the loop body give the occurrence. *)
Lemma occurrence_computed {A} (b today o : date) (k : date -> M A) (w : world) :
  valid_date b -> occurrence b today = Some o ->
  bind (lift (replace_year b (year today)))
    (fun b1 => bind (if date_lt b1 today
                     then lift (replace_year b1 (year today + 1))
                     else ret b1) k) w
  = k o w.
Proof.
  intros Hb. unfold occurrence.
  destruct (in_year b (year today)) as [o1|] eqn:E1; [|discriminate].
  rewrite (replace_year_in_year b _ o1 Hb E1).
  pose proof (in_year_fields _ _ _ E1) as (Hy & Hm & Hd).
  unfold bind at 1. cbn [lift ret].
  rewrite (date_lt_same_year o1 today Hy).
  destruct (earlier_in_year o1 today).
  - intros E2.
    assert (R : replace_year o1 (year today + 1) = inr o).
    { unfold replace_year. rewrite Hm, Hd.
      exact (replace_year_in_year b _ o Hb E2). }
    rewrite R. reflexivity.
  - intros [= <-]. reflexivity.
Qed.

Lemma occurrence_missing {A} (b today : date) (k : date -> M A) (w : world) :
  valid_date b -> occurrence b today = None ->
  exists e,
    bind (lift (replace_year b (year today)))
      (fun b1 => bind (if date_lt b1 today
                       then lift (replace_year b1 (year today + 1))
                       else ret b1) k) w
    = Some (inl e, w).
Proof.
  intros Hb. unfold occurrence.
  destruct (in_year b (year today)) as [o1|] eqn:E1.
  - rewrite (replace_year_in_year b _ o1 Hb E1).
    pose proof (in_year_fields _ _ _ E1) as (Hy & Hm & Hd).
    unfold bind at 1. cbn [lift ret].
    rewrite (date_lt_same_year o1 today Hy).
    destruct (earlier_in_year o1 today); [|discriminate].
    intros E2.
    destruct (replace_year_no_such_day b _ Hb E2) as (e & R).
    exists e. unfold replace_year in *. rewrite Hm, Hd, R. reflexivity.
  - intros _. destruct (replace_year_no_such_day b _ Hb E1) as (e & R).
    exists e. rewrite R. reflexivity.
Qed.

Local Close Scope Z_scope.

Lemma omap_step {A B} (f : A -> option B) (x : A) (l : list A) :
  omap f (x :: l) = match f x with Some y => y :: omap f l | None => omap f l end.
Proof. reflexivity. Qed.

(** The loop over records that all have an occurrence. *)
Lemma upcoming_loop_entries (today : date) (w : world) (records : list loc) :
  forall acc : list entry,
  (forall l, In l records -> exists r, heap w !! l = Some r) ->
  (forall l r b, In l records -> heap w !! l = Some r -> birthday r = Some b ->
     valid_date b /\ exists o, occurrence b today = Some o) ->
  upcoming_loop today records acc w
  = Some (inr (acc ++ omap (upcoming_entry today) (omap (fun l => heap w !! l) records)), w).
Proof.
  induction records as [|l records IH]; intros acc Hh Hb; cbn [upcoming_loop].
  - unfold ret. rewrite app_nil_r. reflexivity.
  - destruct (Hh l (or_introl eq_refl)) as (r & Hr).
    unfold bind at 1. rewrite (deref_eq l r w Hr).
    assert (Hh' : forall l', In l' records -> exists r', heap w !! l' = Some r')
      by (intros; apply Hh; right; assumption).
    assert (Hb' : forall l' r' b', In l' records -> heap w !! l' = Some r' ->
                    birthday r' = Some b' ->
                    valid_date b' /\ exists o, occurrence b' today = Some o)
      by (intros l' r' b' Hin; apply Hb; right; assumption).
    rewrite (omap_step (fun l => heap w !! l)), Hr, omap_step. unfold upcoming_entry at 1.
    destruct (birthday r) as [b|] eqn:Eb.
    + destruct (Hb l r b (or_introl eq_refl) Hr Eb) as (Hv & o & Ho).
      rewrite (occurrence_computed b today o _ w Hv Ho). rewrite Ho.
      unfold sub_days.
      destruct ((0 <=? toordinal o - toordinal today)%Z
                && (toordinal o - toordinal today <=? 7)%Z).
      * rewrite (IH _ Hh' Hb'). rewrite <- app_assoc. reflexivity.
      * rewrite (IH _ Hh' Hb'). reflexivity.
    + rewrite (IH _ Hh' Hb'). reflexivity.
Qed.

(** The loop stops with an exception at the first record without an
    occurrence. *)
Lemma upcoming_loop_raises (today : date) (w : world) (records : list loc) :
  forall acc : list entry,
  (forall l, In l records -> exists r, heap w !! l = Some r) ->
  (forall l r b, In l records -> heap w !! l = Some r -> birthday r = Some b ->
     valid_date b) ->
  (exists l r b, In l records /\ heap w !! l = Some r /\ birthday r = Some b
                 /\ occurrence b today = None) ->
  exists e, upcoming_loop today records acc w = Some (inl e, w).
Proof.
  induction records as [|l records IH]; intros acc Hh Hb (l0 & r0 & b0 & Hin & Hr0 & Eb0 & Ho);
    [destruct Hin|].
  cbn [upcoming_loop].
  destruct (Hh l (or_introl eq_refl)) as (r & Hr).
  unfold bind at 1. rewrite (deref_eq l r w Hr).
  assert (Hh' : forall l', In l' records -> exists r', heap w !! l' = Some r')
    by (intros; apply Hh; right; assumption).
  assert (Hb' : forall l' r' b', In l' records -> heap w !! l' = Some r' ->
                  birthday r' = Some b' -> valid_date b')
    by (intros l' r' b' Hin'; apply Hb; right; assumption).
  assert (Rest : In l0 records -> forall acc', exists e,
                   upcoming_loop today records acc' w = Some (inl e, w)).
  { intros Hin' acc'. apply IH; auto. exists l0, r0, b0. auto. }
  destruct (birthday r) as [b|] eqn:Eb.
  - pose proof (Hb l r b (or_introl eq_refl) Hr Eb) as Hv.
    destruct (occurrence b today) as [o|] eqn:Eo.
    + rewrite (occurrence_computed b today o _ w Hv Eo).
      destruct Hin as [<-|Hin]; [congruence|].
      destruct (_ && _); apply Rest; assumption.
    + apply (occurrence_missing b today _ w Hv Eo).
  - destruct Hin as [<-|Hin]; [congruence|]. apply Rest; assumption.
Qed.

Lemma stored_locations (w : world) :
  book_ok w -> forall l, In l (dict_values (data w)) -> exists r, heap w !! l = Some r.
Proof.
  intros [_ Hok] l Hin. unfold dict_values in Hin.
  apply in_map_iff in Hin as ([k l'] & <- & Hin).
  destruct (Hok k l' Hin) as (r & Hr & _). eauto.
Qed.

Lemma stored_records_In (w : world) (l : loc) (r : RecordObj) :
  In l (dict_values (data w)) -> heap w !! l = Some r -> In r (stored_records w).
Proof.
  intros Hin Hr. unfold stored_records.
  apply list_elem_of_In. apply list_elem_of_omap. exists l.
  split; [apply list_elem_of_In; exact Hin | exact Hr].
Qed.

Lemma leap_day_no_occurrence (b today : date) :
  month b = 2%Z -> day b = 29%Z -> leap_year (year today) = false ->
  occurrence b today = None.
Proof.
  intros Hm Hd Hl. unfold occurrence, in_year, month_length.
  rewrite Hm, Hd, Hl. simpl. rewrite andb_false_r. reflexivity.
Qed.

(** In a book whose records all have an occurrence for [today], the query
    returns, in the order of the book, the entry of each record whose
    occurrence is 0 to 7 days away. *)
Theorem upcoming_birthdays_exact (w : world) (today : date)
    (Hok : book_ok w) (Hv : birthdays_valid w) (Hex : occurrences_exist today w) :
  AddressBook_get_upcoming_birthdays today w
  = Some (inr (omap (upcoming_entry today) (stored_records w)), w).
Proof.
  unfold AddressBook_get_upcoming_birthdays, bind, get_data.
  rewrite (upcoming_loop_entries today w (dict_values (data w)) []).
  - reflexivity.
  - apply stored_locations. exact Hok.
  - intros l r b Hin Hr Hb. split.
    + exact (Hv l r b Hin Hr Hb).
    + apply (Hex r b); [|exact Hb]. exact (stored_records_In w l r Hin Hr).
Qed.

Lemma book_ok_world_new_year : book_ok world_new_year.
Proof.
  split.
  - apply List.NoDup_cons; [simpl; tauto | apply List.NoDup_nil].
  - intros k l [[= <- <-]|[]]. eexists. split; reflexivity.
Qed.

Lemma birthdays_valid_world_new_year : birthdays_valid world_new_year.
Proof.
  intros l r b [<-|[]] Hr Hb. vm_compute in Hr. injection Hr as <-.
  injection Hb as <-. vm_compute. intuition discriminate.
Qed.

(** Alice, born 01.01.1990: seen from 30.12.2024 her occurrence is
    2025.01.01, two days away, and she is listed; seen from 24.12.2024 it is
    eight days away and she is not; seen from 01.01.2025 it is that very day
    and she is listed. *)
Lemma upcoming_birthdays_exact_witness :
  AddressBook_get_upcoming_birthdays (mkdate 2024 12 30) world_new_year
    = Some (inr [mkEntry alice (py "2025.01.01")], world_new_year)
  /\ AddressBook_get_upcoming_birthdays (mkdate 2024 12 24) world_new_year
    = Some (inr [], world_new_year)
  /\ AddressBook_get_upcoming_birthdays (mkdate 2025 1 1) world_new_year
    = Some (inr [mkEntry alice (py "2025.01.01")], world_new_year).
Proof.
  assert (Hex : forall today, (1 <= year today <= 9998)%Z ->
                  occurrences_exist today world_new_year).
  { intros today Hy r b Hin Hb.
    assert (E : stored_records world_new_year
                = [mkRecord alice [phone_a] (Some (mkdate 1990 1 1))])
      by (vm_compute; reflexivity).
    rewrite E in Hin. destruct Hin as [<-|[]]. injection Hb as <-.
    unfold occurrence, in_year. cbn [month day].
    change (month_length (year today) 1) with 31%Z.
    change (month_length (year today + 1) 1) with 31%Z.
    replace ((1 <=? year today)%Z && (year today <=? 9999)%Z) with true
      by (symmetry; rewrite andb_true_iff, !Z.leb_le; lia).
    replace ((1 <=? year today + 1)%Z && (year today + 1 <=? 9999)%Z) with true
      by (symmetry; rewrite andb_true_iff, !Z.leb_le; lia).
    cbn [andb Z.leb Z.compare Pos.compare Pos.compare_cont].
    match goal with
    | |- context [earlier_in_year ?o today] => destruct (earlier_in_year o today)
    end; eauto. }
  split; [|split].
  - apply (upcoming_birthdays_exact world_new_year (mkdate 2024 12 30)
             book_ok_world_new_year birthdays_valid_world_new_year).
    apply Hex. simpl. lia.
  - apply (upcoming_birthdays_exact world_new_year (mkdate 2024 12 24)
             book_ok_world_new_year birthdays_valid_world_new_year).
    apply Hex. simpl. lia.
  - apply (upcoming_birthdays_exact world_new_year (mkdate 2025 1 1)
             book_ok_world_new_year birthdays_valid_world_new_year).
    apply Hex. simpl. lia.
Defined.

Lemma book_ok_world_leap_day : book_ok world_leap_day.
Proof.
  split.
  - apply List.NoDup_cons; [|apply List.NoDup_cons; [simpl; tauto | apply List.NoDup_nil]].
    simpl. intros [H|[]]. discriminate H.
  - intros k l [[= <- <-]|[[= <- <-]|[]]]; eexists; split; reflexivity.
Qed.

Lemma birthdays_valid_world_leap_day : birthdays_valid world_leap_day.
Proof.
  intros l r b [<-|[<-|[]]] Hr Hb; vm_compute in Hr; injection Hr as <-;
    injection Hb as <-; vm_compute; intuition discriminate.
Qed.

(** C4 fails for a birthday on February 29.  Whenever the book holds a record
    born on a February 29 and the reference date is in a year that is not a
    leap year, replacing the birthday's year raises "day is out of range for
    month", and the query raises instead of returning a list. *)
Theorem leap_day_birthday_raises (w : world) (today : date) (l : loc) (r : RecordObj)
    (b : date)
    (Hok : book_ok w) (Hv : birthdays_valid w)
    (Hy : (1 <= year today <= 9999)%Z)
    (Hin : In l (dict_values (data w))) (Hr : heap w !! l = Some r)
    (Hb : birthday r = Some b)
    (Hm : month b = 2%Z) (Hd : day b = 29%Z)
    (Hl : leap_year (year today) = false) :
  replace_year b (year today) = inl DayOutOfRange
  /\ exists e, AddressBook_get_upcoming_birthdays today w = Some (inl e, w).
Proof.
  split.
  - unfold replace_year, date_new, MINYEAR, MAXYEAR. rewrite Hm, Hd.
    rewrite (days_in_month_length (year today) 2) by lia.
    unfold month_length. rewrite Hl. simpl.
    replace ((1 <=? year today)%Z && (year today <=? 9999)%Z) with true
      by (symmetry; rewrite andb_true_iff, !Z.leb_le; lia).
    reflexivity.
  - unfold AddressBook_get_upcoming_birthdays, bind, get_data.
    apply upcoming_loop_raises.
    + apply stored_locations. exact Hok.
    + exact Hv.
    + exists l, r, b. repeat split; try assumption.
      apply leap_day_no_occurrence; assumption.
Qed.

(** C4 on the book of Alice and Bob, Bob born 29.02.2024, seen from
    25.02.2025. *)
Lemma leap_day_birthday_raises_witness :
  replace_year (mkdate 2024 2 29) 2025 = inl DayOutOfRange
  /\ exists e, AddressBook_get_upcoming_birthdays (mkdate 2025 2 25) world_leap_day
               = Some (inl e, world_leap_day).
Proof.
  apply (leap_day_birthday_raises world_leap_day (mkdate 2025 2 25) 1%nat
           (mkRecord bob [phone_b] (Some (mkdate 2024 2 29))) (mkdate 2024 2 29)
           book_ok_world_leap_day birthdays_valid_world_leap_day).
  - simpl. lia.
  - right. left. reflexivity.
  - reflexivity.
  - reflexivity.
  - reflexivity.
  - reflexivity.
  - reflexivity.
Defined.

(** C1 fails where C4 does.  The book holds Alice, born 01.03.1990, and Bob,
    born 29.02.2024, and the reference date is 25.02.2025: Alice's occurrence
    2025.03.01 is four days away, so she belongs in the result, but the query
    raises on Bob's birthday and returns nothing; the [birthdays] command
    shows the error text. *)
Theorem upcoming_birthdays_lost_to_leap_day :
  heap world_leap_day
    = [mkRecord alice [phone_a] (Some (mkdate 1990 3 1));
       mkRecord bob [phone_b] (Some (mkdate 2024 2 29))]
  /\ data world_leap_day = [(alice, 0%nat); (bob, 1%nat)]
  /\ upcoming_entry (mkdate 2025 2 25) (mkRecord alice [phone_a] (Some (mkdate 1990 3 1)))
     = Some (mkEntry alice (py "2025.03.01"))
  /\ sub_days (mkdate 2025 3 1) (mkdate 2025 2 25) = 4%Z
  /\ AddressBook_get_upcoming_birthdays (mkdate 2025 2 25) world_leap_day
     = Some (inl DayOutOfRange, world_leap_day)
  /\ birthdays (mkdate 2025 2 25) world_leap_day
     = Some (inr (py "day is out of range for month"), world_leap_day).
Proof. repeat split; vm_compute; reflexivity. Qed.

(** ** What keeps the phones of a record distinct, and the book in order *)

Lemma deref_None {A} (l : loc) (w : world) (k : RecordObj -> M A) :
  heap w !! l = None -> bind (deref l) k w = None.
Proof. intros H. unfold bind, deref. rewrite H. reflexivity. Qed.

Lemma NoDup_delete {A} (i : nat) (l : list A) : List.NoDup l -> List.NoDup (delete i l).
Proof.
  revert i; induction l as [|x l IH]; intros i H; [destruct i; exact H|].
  apply NoDup_cons_iff in H as [Hx Hl].
  destruct i as [|i]; [exact Hl|].
  change (delete (S i) (x :: l)) with (x :: delete i l).
  apply List.NoDup_cons; [|apply IH; exact Hl].
  intros Hin. apply Hx.
  apply list_elem_of_In. apply list_elem_of_In in Hin.
  exact (list_elem_of_delete_inv x i l Hin).
Qed.

Lemma NoDup_snoc {A} (x : A) (l : list A) :
  List.NoDup l -> ~ In x l -> List.NoDup (l ++ [x]).
Proof.
  intros Hl Hx. apply List.NoDup_app; [exact Hl | |].
  - apply List.NoDup_cons; [simpl; tauto | apply List.NoDup_nil].
  - intros a Ha [<-|[]]. contradiction.
Qed.

Lemma In_insert_inv {A} (i : nat) (x y : A) (l : list A) :
  In y (<[i := x]> l) -> y = x \/ In y l.
Proof.
  revert i; induction l as [|z l IH]; intros i H; [destruct i; destruct H|].
  destruct i as [|i].
  - change (<[0%nat := x]> (z :: l)) with (x :: l) in H.
    destruct H as [<-|H]; [left; reflexivity | right; right; exact H].
  - change (<[S i := x]> (z :: l)) with (z :: <[i := x]> l) in H.
    destruct H as [<-|H]; [right; left; reflexivity|].
    destruct (IH i H) as [->|H']; [left; reflexivity | right; right; exact H'].
Qed.

Lemma NoDup_insert_fresh {A} (i : nat) (x : A) (l : list A) :
  List.NoDup l -> ~ In x l -> List.NoDup (<[i := x]> l).
Proof.
  revert i; induction l as [|y l IH]; intros i Hl Hx; [exact Hl|].
  apply NoDup_cons_iff in Hl as [Hy Hl].
  destruct i as [|i].
  - change (<[0%nat := x]> (y :: l)) with (x :: l).
    apply List.NoDup_cons; [simpl in Hx; tauto | exact Hl].
  - change (<[S i := x]> (y :: l)) with (y :: <[i := x]> l).
    apply List.NoDup_cons; [|apply IH; [exact Hl | simpl in Hx; tauto]].
    intros Hin. apply In_insert_inv in Hin as [->|Hin].
    + apply Hx. left. reflexivity.
    + apply Hy. exact Hin.
Qed.

Lemma all_unique_lookup (w : world) (l : loc) (r : RecordObj) :
  all_unique w -> heap w !! l = Some r -> unique_phones r.
Proof.
  unfold all_unique. rewrite Forall_lookup. intros H Hr. exact (H l r Hr).
Qed.

Lemma all_unique_store (w : world) (l : loc) (r' : RecordObj) :
  all_unique w -> unique_phones r' ->
  all_unique (mkWorld (<[l := r']> (heap w)) (data w)).
Proof. unfold all_unique. simpl. intros H Hr. apply Forall_insert; assumption. Qed.

Lemma all_unique_alloc (w : world) (r' : RecordObj) (d : list (pystr * loc)) :
  all_unique w -> unique_phones r' -> all_unique (mkWorld (heap w ++ [r']) d).
Proof.
  unfold all_unique. simpl. intros H Hr. apply Forall_app. split; [exact H|].
  apply Forall_cons. split; [exact Hr | apply Forall_nil; exact I].
Qed.

Lemma add_phone_all_unique (w w' : world) (self : loc) (p : pystr) (res : result unit) :
  all_unique w -> Record_add_phone self p w = Some (res, w') -> all_unique w'.
Proof.
  intros Hu. destruct (heap w !! self) as [r|] eqn:Hr.
  - rewrite (Record_add_phone_eq self p w r Hr).
    destruct (existsb _ _) eqn:E; [intros [= <- <-]; exact Hu|].
    destruct (Phone p) as [e|q] eqn:Hp; intros [= <- <-]; [exact Hu|].
    apply Phone_inr in Hp. subst q.
    apply all_unique_store; [exact Hu|].
    unfold unique_phones. simpl. apply NoDup_snoc.
    + exact (all_unique_lookup w self r Hu Hr).
    + rewrite <- existsb_str_eqb. congruence.
  - unfold Record_add_phone. rewrite (deref_None _ _ _ Hr). discriminate.
Qed.

Lemma remove_phone_all_unique (w w' : world) (self : loc) (p : pystr) (res : result unit) :
  all_unique w -> Record_remove_phone self p w = Some (res, w') -> all_unique w'.
Proof.
  intros Hu. destruct (heap w !! self) as [r|] eqn:Hr.
  - rewrite (Record_remove_phone_eq self p w r Hr).
    destruct (first_index _ _); intros [= <- <-]; [|exact Hu].
    apply all_unique_store; [exact Hu|].
    unfold unique_phones. simpl. apply NoDup_delete.
    exact (all_unique_lookup w self r Hu Hr).
  - unfold Record_remove_phone. rewrite (deref_None _ _ _ Hr). discriminate.
Qed.

Lemma add_birthday_all_unique (w w' : world) (self : loc) (s : pystr) (res : result unit) :
  all_unique w -> Record_add_birthday self s w = Some (res, w') -> all_unique w'.
Proof.
  intros Hu. destruct (heap w !! self) as [r|] eqn:Hr.
  - rewrite (Record_add_birthday_eq self s w r Hr).
    destruct (Birthday s); intros [= <- <-]; [exact Hu|].
    apply all_unique_store; [exact Hu|].
    exact (all_unique_lookup w self r Hu Hr).
  - unfold Record_add_birthday. rewrite (deref_None _ _ _ Hr). discriminate.
Qed.

Lemma edit_phone_all_unique (w w' : world) (self : loc) (r : RecordObj)
    (old_phone new_phone : pystr) (res : result unit) :
  all_unique w -> heap w !! self = Some r -> ~ In new_phone (phones r) ->
  Record_edit_phone self old_phone new_phone w = Some (res, w') -> all_unique w'.
Proof.
  intros Hu Hr Hn. rewrite (Record_edit_phone_eq self old_phone new_phone w r Hr).
  destruct (first_index _ _); [|intros [= <- <-]; exact Hu].
  destruct (Phone new_phone) as [e|q] eqn:Hp; intros [= <- <-]; [exact Hu|].
  apply Phone_inr in Hp. subst q.
  apply all_unique_store; [exact Hu|].
  unfold unique_phones. simpl. apply NoDup_insert_fresh; [|exact Hn].
  exact (all_unique_lookup w self r Hu Hr).
Qed.

Lemma Record_init_eq (n : pystr) (w : world) :
  Record_init n w =
    match n with
    | [] => Some (inl EmptyName, w)
    | _ => Some (inr (length (heap w)), mkWorld (heap w ++ [mkRecord n [] None]) (data w))
    end.
Proof. destruct n; reflexivity. Qed.

Lemma add_contact_empty_name (w : world) (phone : pystr) :
  dict_get [] (data w) = None ->
  add_contact [[]; phone] w = Some (inr (py "Name is a required field"), w).
Proof.
  intros Hg. unfold add_contact, input_error, try_except. cbn [length Nat.ltb Nat.leb].
  unfold bind at 1. unfold AddressBook_find, bind at 1, get_data, ret at 1.
  rewrite Hg. reflexivity.
Qed.

(** The outcomes of [add]: the world as it was; or a phone added to a stored
    record; or a new record, with no phone or with one, as the last entry. *)
Lemma add_contact_cases (args : list pystr) (w w' : world) (res : result pystr) :
  add_contact args w = Some (res, w') ->
  w' = w
  \/ (exists l p r, Record_add_phone l p w = Some (r, w'))
  \/ (exists n ps, n <> [] /\ dict_get n (data w) = None
        /\ (ps = [] \/ exists p, ps = [p])
        /\ w' = mkWorld (heap w ++ [mkRecord n ps None])
                        (data w ++ [(n, length (heap w))])).
Proof.
  destruct args as [|n [|p [|x args]]]; try (intros [= <- <-]; left; reflexivity).
  destruct (dict_get n (data w)) as [l|] eqn:Hg.
  - rewrite (add_contact_known w n p l Hg).
    destruct (Record_add_phone l p w) as [[[e|[]] w'']|] eqn:E; [| |discriminate];
      intros [= <- <-]; right; left; eauto.
  - destruct n as [|c n].
    + intros H. pose proof (add_contact_empty_name w p Hg) as E.
      assert (X : Some (res, w') = Some (inr (py "Name is a required field"), w))
        by (rewrite <- H; exact E).
      injection X as _ ->. left. reflexivity.
    + rewrite (add_contact_new w (c :: n) p ltac:(discriminate) Hg).
      destruct (Phone p) as [e|q]; intros [= <- <-]; right; right;
        exists (c :: n); eexists; (split; [discriminate|]); (split; [exact Hg|]);
        (split; [|reflexivity]); eauto.
Qed.

Lemma change_contact_cases (args : list pystr) (w w' : world) (res : result pystr) :
  change_contact args w = Some (res, w') ->
  w' = w \/ exists l old_number new_number r,
              dict_get (hd [] args) (data w) = Some l
              /\ Record_edit_phone l old_number new_number w = Some (r, w').
Proof.
  destruct args as [|n [|o [|p [|x args]]]]; try (intros [= <- <-]; left; reflexivity).
  unfold change_contact, input_error, try_except.
  unfold bind at 1. unfold AddressBook_find, bind at 1, get_data, ret at 1.
  destruct (dict_get n (data w)) as [l|] eqn:Hg; [|intros [= <- <-]; left; reflexivity].
  unfold bind.
  destruct (Record_edit_phone l o p w) as [[[e|[]] w'']|] eqn:E; [| |discriminate];
    intros [= <- <-]; right; exists l, o, p; eauto.
Qed.

Lemma add_birthday_cases (args : list pystr) (w w' : world) (res : result pystr) :
  add_birthday args w = Some (res, w') ->
  w' = w \/ exists l s r, Record_add_birthday l s w = Some (r, w').
Proof.
  destruct args as [|n [|s [|x args]]]; try (intros [= <- <-]; left; reflexivity).
  unfold add_birthday, input_error, try_except.
  unfold bind at 1. unfold AddressBook_find, bind at 1, get_data, ret at 1.
  destruct (dict_get n (data w)) as [l|] eqn:Hg; [|intros [= <- <-]; left; reflexivity].
  unfold bind.
  destruct (Record_add_birthday l s w) as [[[e|[]] w'']|] eqn:E; [| |discriminate];
    intros [= <- <-]; right; eauto.
Qed.

(** Every operation but [edit_phone] keeps the phones of every record
    distinct: the constructor, [add_phone], [remove_phone], [add_birthday] and
    the [add] and [add-birthday] commands; [edit_phone] does when the new
    value is not already a phone of the record. *)
Theorem unique_phones_kept (w : world) (Hu : all_unique w) :
  (forall n res w', Record_init n w = Some (res, w') -> all_unique w')
  /\ (forall self p res w', Record_add_phone self p w = Some (res, w') -> all_unique w')
  /\ (forall self p res w', Record_remove_phone self p w = Some (res, w') -> all_unique w')
  /\ (forall self s res w', Record_add_birthday self s w = Some (res, w') -> all_unique w')
  /\ (forall args res w', add_contact args w = Some (res, w') -> all_unique w')
  /\ (forall args res w', add_birthday args w = Some (res, w') -> all_unique w')
  /\ (forall self r old_phone new_phone res w',
        heap w !! self = Some r -> ~ In new_phone (phones r) ->
        Record_edit_phone self old_phone new_phone w = Some (res, w') -> all_unique w').
Proof.
  repeat apply conj.
  - intros n res w'. rewrite Record_init_eq.
    destruct n; intros [= <- <-]; [exact Hu|].
    apply all_unique_alloc; [exact Hu | apply List.NoDup_nil].
  - intros self p res w'. apply add_phone_all_unique. exact Hu.
  - intros self p res w'. apply remove_phone_all_unique. exact Hu.
  - intros self s res w'. apply add_birthday_all_unique. exact Hu.
  - intros args res w' H.
    apply add_contact_cases in H as [->|[(l & p & r & H)|(n & ps & _ & _ & Hps & ->)]].
    + exact Hu.
    + exact (add_phone_all_unique w w' l p r Hu H).
    + apply all_unique_alloc; [exact Hu|].
      destruct Hps as [->|(p & ->)]; [apply List.NoDup_nil|].
      apply List.NoDup_cons; [simpl; tauto | apply List.NoDup_nil].
  - intros args res w' H. apply add_birthday_cases in H as [->|(l & s & r & H)].
    + exact Hu.
    + exact (add_birthday_all_unique w w' l s r Hu H).
  - intros self r old_phone new_phone res w' Hr Hn.
    exact (edit_phone_all_unique w w' self r old_phone new_phone res Hu Hr Hn).
Qed.

Lemma all_unique_world_alice2 : all_unique world_alice2.
Proof.
  apply Forall_cons. split; [|apply Forall_nil; exact I].
  unfold unique_phones. simpl.
  apply List.NoDup_cons; [|apply List.NoDup_cons; [simpl; tauto | apply List.NoDup_nil]].
  simpl. intros [H|[]]. discriminate H.
Qed.

(** On Alice with her two phones: a third phone by [add], and 0123456789
    edited into a value she does not have. *)
Lemma unique_phones_kept_witness :
  all_unique (after (add_contact [alice; py "0111111111"]) world_alice2)
  /\ all_unique (after (Record_edit_phone 0 phone_a (py "0111111111")) world_alice2).
Proof.
  pose proof (unique_phones_kept world_alice2 all_unique_world_alice2)
    as (_ & _ & _ & _ & Hadd & _ & Hedit).
  split.
  - eapply (Hadd [alice; py "0111111111"]). reflexivity.
  - eapply (Hedit 0%nat (mkRecord alice [phone_a; phone_b] None) phone_a (py "0111111111")).
    + reflexivity.
    + simpl. intros [H|[H|[]]]; discriminate H.
    + reflexivity.
Defined.

Lemma book_ok_store (w : world) (l : loc) (r r' : RecordObj) :
  book_ok w -> heap w !! l = Some r -> name r' = name r ->
  book_ok (mkWorld (<[l := r']> (heap w)) (data w)).
Proof.
  intros [Hnd Hok] Hr Hn. split; [exact Hnd|]. simpl.
  intros k l0 Hin. destruct (Hok k l0 Hin) as (r0 & Hr0 & Hk).
  destruct (Nat.eq_dec l l0) as [<-|Hne].
  - exists r'. split.
    + apply list_lookup_insert_eq. apply lookup_lt_Some with r. exact Hr.
    + congruence.
  - exists r0. split; [|exact Hk]. rewrite list_lookup_insert_ne by exact Hne. exact Hr0.
Qed.

Lemma book_ok_new_entry (w : world) (n : pystr) (ps : list pystr) :
  book_ok w -> dict_get n (data w) = None ->
  book_ok (mkWorld (heap w ++ [mkRecord n ps None]) (data w ++ [(n, length (heap w))])).
Proof.
  intros [Hnd Hok] Hg. apply dict_get_None in Hg. split; simpl.
  - unfold dict_keys. rewrite map_app. apply NoDup_snoc; assumption.
  - intros k l Hin. apply in_app_or in Hin as [Hin|[[= <- <-]|[]]].
    + destruct (Hok k l Hin) as (r & Hr & Hk). exists r. split; [|exact Hk].
      apply lookup_app_l_Some. exact Hr.
    + eexists. split; [apply lookup_fresh | reflexivity].
Qed.

Lemma In_dict_del {V} (k x : pystr) (v : V) (d : list (pystr * V)) :
  In (x, v) (dict_del k d) -> In (x, v) d.
Proof.
  induction d as [|[k' v'] d IH]; simpl; [tauto|].
  destruct (str_eqb k' k); simpl; tauto.
Qed.

Lemma add_record_keeps_book_ok (w w' : world) (record : loc) (r : RecordObj)
    (res : result unit) :
  book_ok w -> heap w !! record = Some r ->
  AddressBook_add_record record w = Some (res, w') -> book_ok w'.
Proof.
  intros Hok Hr. rewrite (AddressBook_add_record_eq record w r Hr).
  destruct (dict_contains (name r) (data w)) eqn:E; intros [= <- <-]; [exact Hok|].
  assert (Hn : ~ In (name r) (dict_keys (data w))).
  { rewrite <- dict_contains_keys. congruence. }
  rewrite dict_set_fresh by (apply dict_get_None; exact Hn).
  apply book_ok_insert; assumption.
Qed.

(** The book stays a dict from each name to the record of that name, one
    record per name, under [add_record], [delete] and the commands that change
    records. *)
Theorem book_stays_ok (w : world) (Hok : book_ok w) :
  (forall record res w', AddressBook_add_record record w = Some (res, w') -> book_ok w')
  /\ (forall n res w', AddressBook_delete n w = Some (res, w') -> book_ok w')
  /\ (forall args res w', add_contact args w = Some (res, w') -> book_ok w')
  /\ (forall args res w', change_contact args w = Some (res, w') -> book_ok w')
  /\ (forall args res w', add_birthday args w = Some (res, w') -> book_ok w').
Proof.
  assert (Hadd : forall l p r w', Record_add_phone l p w = Some (r, w') -> book_ok w').
  { intros l p r w'. destruct (heap w !! l) as [r0|] eqn:Hr.
    - rewrite (Record_add_phone_eq l p w r0 Hr).
      destruct (existsb _ _); [intros [= <- <-]; exact Hok|].
      destruct (Phone p); intros [= <- <-]; [exact Hok|].
      apply (book_ok_store w l r0); auto.
    - unfold Record_add_phone. rewrite (deref_None _ _ _ Hr). discriminate. }
  repeat apply conj.
  - intros record res w'. destruct (heap w !! record) as [r|] eqn:Hr.
    + exact (add_record_keeps_book_ok w w' record r res Hok Hr).
    + unfold AddressBook_add_record. rewrite (deref_None _ _ _ Hr). discriminate.
  - intros n res w'. unfold AddressBook_delete, bind, get_data.
    destruct (dict_contains n (data w)); intros [= <- <-]; [|exact Hok].
    destruct Hok as [Hnd Hok]. split; simpl.
    + apply dict_del_NoDup. exact Hnd.
    + intros k l Hin. apply Hok. eapply In_dict_del. exact Hin.
  - intros args res w' H.
    apply add_contact_cases in H as [->|[(l & p & r & H)|(n & ps & _ & Hg & _ & ->)]].
    + exact Hok.
    + exact (Hadd l p r w' H).
    + apply book_ok_new_entry; assumption.
  - intros args res w' H.
    apply change_contact_cases in H as [->|(l & o & p & r & _ & H)]; [exact Hok|].
    revert H. destruct (heap w !! l) as [r0|] eqn:Hr.
    + rewrite (Record_edit_phone_eq l o p w r0 Hr).
      destruct (first_index _ _); [|intros [= <- <-]; exact Hok].
      destruct (Phone p); intros [= <- <-]; [exact Hok|].
      apply (book_ok_store w l r0); auto.
    + unfold Record_edit_phone. rewrite (deref_None _ _ _ Hr). discriminate.
  - intros args res w' H.
    apply add_birthday_cases in H as [->|(l & s & r & H)]; [exact Hok|].
    revert H. destruct (heap w !! l) as [r0|] eqn:Hr.
    + rewrite (Record_add_birthday_eq l s w r0 Hr).
      destruct (Birthday s); intros [= <- <-]; [exact Hok|].
      apply (book_ok_store w l r0); auto.
    + unfold Record_add_birthday. rewrite (deref_None _ _ _ Hr). discriminate.
Qed.

Lemma book_ok_world_alice : book_ok world_alice.
Proof.
  split.
  - apply List.NoDup_cons; [simpl; tauto | apply List.NoDup_nil].
  - intros k l [[= <- <-]|[]]. eexists. split; reflexivity.
Qed.

(** On the book that holds Alice: after [add Bob 0999999999], and after
    deleting Alice. *)
Lemma book_stays_ok_witness :
  book_ok (after (add_contact [bob; phone_b]) world_alice)
  /\ book_ok (after (AddressBook_delete alice) world_alice).
Proof.
  pose proof (book_stays_ok world_alice book_ok_world_alice) as (_ & Hdel & Hadd & _ & _).
  split.
  - eapply (Hadd [bob; phone_b]). reflexivity.
  - eapply (Hdel alice). reflexivity.
Defined.

(** * More of the program *)

(** ** Phones of a record: removing, finding, replacing *)

Lemma first_index_least (p : pystr) (ps : list pystr) (i : nat) :
  first_index p ps = Some i -> forall j, (j < i)%nat -> ps !! j <> Some p.
Proof.
  revert i; induction ps as [|q ps IH]; intros i; simpl; [discriminate|].
  destruct (str_eqb q p) eqn:E.
  - intros [= <-] j Hj. lia.
  - apply str_eqb_neq in E.
    destruct (first_index p ps) as [i'|]; [|discriminate].
    intros [= <-] [|j] Hj; simpl.
    + congruence.
    + apply (IH i' eq_refl). lia.
Qed.

Lemma first_index_app_fresh (p : pystr) (ps : list pystr) :
  ~ In p ps -> first_index p (ps ++ [p]) = Some (length ps).
Proof.
  induction ps as [|q ps IH]; simpl; intros Hn.
  - rewrite str_eqb_refl. reflexivity.
  - destruct (str_eqb q p) eqn:E.
    + apply str_eqb_eq in E. tauto.
    + rewrite IH by tauto. reflexivity.
Qed.

Lemma first_value_In (p : pystr) (ps : list pystr) :
  In p ps -> first_value p ps = Some p.
Proof.
  induction ps as [|q ps IH]; simpl; [tauto|].
  destruct (str_eqb q p) eqn:E.
  - apply str_eqb_eq in E. subst. reflexivity.
  - apply str_eqb_neq in E. intros [H|H]; [congruence | auto].
Qed.

Lemma first_value_not_In (p : pystr) (ps : list pystr) :
  ~ In p ps -> first_value p ps = None.
Proof.
  induction ps as [|q ps IH]; simpl; [reflexivity|].
  destruct (str_eqb q p) eqn:E.
  - apply str_eqb_eq in E. tauto.
  - tauto.
Qed.

Lemma NoDup_delete_gone {A} (x : A) (i : nat) (l : list A) :
  List.NoDup l -> l !! i = Some x -> ~ In x (delete i l).
Proof.
  revert i; induction l as [|y l IH]; intros i Hnd Hi; [destruct i; discriminate|].
  apply NoDup_cons_iff in Hnd as [Hy Hl].
  destruct i as [|i]; simpl in Hi.
  - injection Hi as ->. exact Hy.
  - change (delete (S i) (y :: l)) with (y :: delete i l).
    intros [->|Hin].
    + apply Hy. apply list_elem_of_In. eapply list_elem_of_lookup_2. exact Hi.
    + exact (IH i Hl Hi Hin).
Qed.

Lemma record_eta (r : RecordObj) : mkRecord (name r) (phones r) (birthday r) = r.
Proof. destruct r; reflexivity. Qed.

Lemma Record_find_phone_eq (self : loc) (phone : pystr) (w : world) (r : RecordObj) :
  heap w !! self = Some r ->
  Record_find_phone self phone w =
    match first_value phone (phones r) with
    | Some v => Some (inr v, w)
    | None => Some (inl (ValueError (py "Phone number not found")), w)
    end.
Proof.
  intros Hr. unfold Record_find_phone, bind. rewrite (deref_eq _ _ _ Hr).
  destruct (first_value _ _); reflexivity.
Qed.

(** [remove_phone] with a value the record does not have raises "Phone number
    not found" and changes nothing; with a value it has, it deletes the first
    entry with that value and no other, and if the phones were distinct the
    value is gone. *)
Theorem remove_phone_first_match (w : world) (self : loc) (r : RecordObj) (phone : pystr)
    (Hr : heap w !! self = Some r) :
  (~ In phone (phones r) ->
     Record_remove_phone self phone w
     = Some (inl (ValueError (py "Phone number not found")), w))
  /\ (In phone (phones r) ->
      exists i,
        phones r !! i = Some phone
        /\ (forall j, (j < i)%nat -> phones r !! j <> Some phone)
        /\ Record_remove_phone self phone w
           = Some (inr tt,
                   mkWorld (<[self := mkRecord (name r) (delete i (phones r)) (birthday r)]>
                              (heap w))
                           (data w))
        /\ (unique_phones r -> ~ In phone (delete i (phones r)))).
Proof.
  rewrite (Record_remove_phone_eq self phone w r Hr). split.
  - intros Hn. apply first_index_None in Hn. rewrite Hn. reflexivity.
  - intros Hin. destruct (first_index_In _ _ Hin) as (i & Hi). rewrite Hi.
    exists i. pose proof (first_index_Some _ _ _ Hi) as Hl.
    split; [exact Hl|]. split; [exact (first_index_least _ _ _ Hi)|].
    split; [reflexivity|].
    intros Hu. exact (NoDup_delete_gone phone i (phones r) Hu Hl).
Qed.

(** Alice with her two phones: an unknown value, and her second phone. *)
Lemma remove_phone_first_match_witness :
  Record_remove_phone 0 (py "0000000000") world_alice2
    = Some (inl (ValueError (py "Phone number not found")), world_alice2)
  /\ exists i, Record_remove_phone 0 phone_b world_alice2
       = Some (inr tt,
               mkWorld (<[0%nat := mkRecord alice (delete i [phone_a; phone_b]) None]>
                          (heap world_alice2))
                       (data world_alice2)).
Proof.
  pose proof (remove_phone_first_match world_alice2 0%nat
                (mkRecord alice [phone_a; phone_b] None)) as H.
  split.
  - apply (H (py "0000000000") eq_refl).
    simpl. intros [E|[E|[]]]; discriminate E.
  - destruct (proj2 (H phone_b eq_refl)) as (i & _ & _ & E & _).
    + right. left. reflexivity.
    + exists i. exact E.
Defined.

(** [find_phone] returns its argument when the record has it and raises
    "Phone number not found" when it has not; the world stays as it was. *)
Theorem find_phone_present_or_not (w : world) (self : loc) (r : RecordObj) (phone : pystr)
    (Hr : heap w !! self = Some r) :
  (In phone (phones r) -> Record_find_phone self phone w = Some (inr phone, w))
  /\ (~ In phone (phones r) ->
      Record_find_phone self phone w
      = Some (inl (ValueError (py "Phone number not found")), w)).
Proof.
  rewrite (Record_find_phone_eq self phone w r Hr). split; intros H.
  - rewrite (first_value_In _ _ H). reflexivity.
  - rewrite (first_value_not_In _ _ H). reflexivity.
Qed.

Lemma find_phone_present_or_not_witness :
  Record_find_phone 0 phone_b world_alice2 = Some (inr phone_b, world_alice2)
  /\ Record_find_phone 0 phone_b world_alice
     = Some (inl (ValueError (py "Phone number not found")), world_alice).
Proof.
  split.
  - apply (find_phone_present_or_not world_alice2 0%nat
             (mkRecord alice [phone_a; phone_b] None) phone_b eq_refl).
    right. left. reflexivity.
  - apply (find_phone_present_or_not world_alice 0%nat
             (mkRecord alice [phone_a] None) phone_b eq_refl).
    simpl. intros [E|[]]. discriminate E.
Defined.

(** A valid phone that the record does not have: after [add_phone],
    [find_phone] returns it, and [remove_phone] gives back the world from
    before the addition. *)
Theorem add_phone_then_remove_restores (w : world) (self : loc) (r : RecordObj) (p : pystr)
    (Hr : heap w !! self = Some r) (Hn : ~ In p (phones r)) (Hp : Phone p = inr p) :
  exists w1,
    Record_add_phone self p w = Some (inr tt, w1)
    /\ Record_find_phone self p w1 = Some (inr p, w1)
    /\ Record_remove_phone self p w1 = Some (inr tt, w).
Proof.
  pose (r1 := mkRecord (name r) (phones r ++ [p]) (birthday r)).
  exists (mkWorld (<[self := r1]> (heap w)) (data w)).
  assert (Hlt : (self < length (heap w))%nat) by (apply lookup_lt_Some with r; exact Hr).
  assert (H1 : heap (mkWorld (<[self := r1]> (heap w)) (data w)) !! self = Some r1)
    by (apply list_lookup_insert_eq; exact Hlt).
  split; [|split].
  - rewrite (Record_add_phone_eq self p w r Hr).
    destruct (existsb _ _) eqn:E; [apply existsb_str_eqb in E; contradiction|].
    rewrite Hp. reflexivity.
  - rewrite (Record_find_phone_eq self p _ r1 H1).
    rewrite first_value_In; [reflexivity|].
    simpl. apply in_or_app. right. left. reflexivity.
  - rewrite (Record_remove_phone_eq self p _ r1 H1).
    cbn [phones r1]. rewrite (first_index_app_fresh p (phones r) Hn).
    cbn [heap data name birthday r1].
    rewrite list_insert_insert_eq.
    replace (delete (length (phones r)) (phones r ++ [p])) with (phones r)
      by (symmetry; rewrite delete_middle; apply app_nil_r).
    rewrite record_eta. rewrite (list_insert_id _ _ _ Hr).
    destruct w; reflexivity.
Qed.

Lemma add_phone_then_remove_restores_witness :
  exists w1,
    Record_add_phone 0 phone_b world_alice = Some (inr tt, w1)
    /\ Record_find_phone 0 phone_b w1 = Some (inr phone_b, w1)
    /\ Record_remove_phone 0 phone_b w1 = Some (inr tt, world_alice).
Proof.
  apply (add_phone_then_remove_restores world_alice 0%nat (mkRecord alice [phone_a] None)
           phone_b eq_refl).
  - simpl. intros [E|[]]. discriminate E.
  - reflexivity.
Defined.

(** [edit_phone] with an old value the record has and a valid new value
    writes the new value at the first position of the old one: the length and
    every other position are unchanged, [find_phone] then returns the new
    value, and if the phones were distinct and the values differ the old
    value is gone. *)
Theorem edit_phone_replaces_in_place (w : world) (self : loc) (r : RecordObj)
    (old_phone new_phone : pystr)
    (Hr : heap w !! self = Some r) (Hin : In old_phone (phones r))
    (Hp : Phone new_phone = inr new_phone) :
  exists i w',
    phones r !! i = Some old_phone
    /\ (forall j, (j < i)%nat -> phones r !! j <> Some old_phone)
    /\ Record_edit_phone self old_phone new_phone w = Some (inr tt, w')
    /\ heap w' !! self
       = Some (mkRecord (name r) (<[i := new_phone]> (phones r)) (birthday r))
    /\ data w' = data w
    /\ length (<[i := new_phone]> (phones r)) = length (phones r)
    /\ <[i := new_phone]> (phones r) !! i = Some new_phone
    /\ (forall j, j <> i -> <[i := new_phone]> (phones r) !! j = phones r !! j)
    /\ Record_find_phone self new_phone w' = Some (inr new_phone, w')
    /\ (unique_phones r -> new_phone <> old_phone ->
        ~ In old_phone (<[i := new_phone]> (phones r))).
Proof.
  destruct (first_index_In _ _ Hin) as (i & Hi).
  pose proof (first_index_Some _ _ _ Hi) as Hl.
  assert (Hlt : (i < length (phones r))%nat) by (apply lookup_lt_Some with old_phone; exact Hl).
  assert (Hs : (self < length (heap w))%nat) by (apply lookup_lt_Some with r; exact Hr).
  pose (r1 := mkRecord (name r) (<[i := new_phone]> (phones r)) (birthday r)).
  exists i, (mkWorld (<[self := r1]> (heap w)) (data w)).
  assert (H1 : heap (mkWorld (<[self := r1]> (heap w)) (data w)) !! self = Some r1)
    by (apply list_lookup_insert_eq; exact Hs).
  assert (Hnew : <[i := new_phone]> (phones r) !! i = Some new_phone)
    by (apply list_lookup_insert_eq; exact Hlt).
  repeat apply conj.
  - exact Hl.
  - exact (first_index_least _ _ _ Hi).
  - rewrite (Record_edit_phone_eq self old_phone new_phone w r Hr), Hi, Hp. reflexivity.
  - exact H1.
  - reflexivity.
  - apply length_insert.
  - exact Hnew.
  - intros j Hj. apply list_lookup_insert_ne. congruence.
  - rewrite (Record_find_phone_eq self new_phone _ r1 H1).
    rewrite first_value_In; [reflexivity|].
    apply list_elem_of_In. eapply list_elem_of_lookup_2. exact Hnew.
  - intros Hu Hne Hin'.
    apply list_elem_of_In in Hin'. apply list_elem_of_lookup in Hin' as (j & Hj).
    destruct (Nat.eq_dec j i) as [->|Hji].
    + rewrite Hnew in Hj. congruence.
    + rewrite list_lookup_insert_ne in Hj by congruence.
      apply Hji. eapply NoDup_lookup; [|exact Hj | exact Hl].
      apply NoDup_ListNoDup. exact Hu.
Qed.

(** Alice with her two phones: 0123456789 becomes 0111111111, at the front. *)
Lemma edit_phone_replaces_in_place_witness :
  exists i w',
    Record_edit_phone 0 phone_a (py "0111111111") world_alice2 = Some (inr tt, w')
    /\ heap w' !! 0%nat
       = Some (mkRecord alice (<[i := py "0111111111"]> [phone_a; phone_b]) None).
Proof.
  destruct (edit_phone_replaces_in_place world_alice2 0%nat
              (mkRecord alice [phone_a; phone_b] None) phone_a (py "0111111111") eq_refl)
    as (i & w' & _ & _ & E & H & _).
  - left. reflexivity.
  - reflexivity.
  - exists i, w'. split; [exact E | exact H].
Defined.

(** ** The book: finding, deleting, adding again *)

Lemma dict_del_split {V} (k : pystr) (v : V) (d : list (pystr * V)) :
  dict_get k d = Some v ->
  exists d1 d2, d = d1 ++ (k, v) :: d2 /\ dict_get k d1 = None /\ dict_del k d = d1 ++ d2.
Proof.
  induction d as [|[k' v'] d IH]; simpl; [discriminate|].
  destruct (str_eqb k' k) eqn:E.
  - apply str_eqb_eq in E. intros [= ->]. subst. exists [], d. auto.
  - intros H. destruct (IH H) as (d1 & d2 & -> & H1 & H2).
    exists ((k', v') :: d1), d2. simpl. rewrite E, H2. auto.
Qed.

Lemma dict_get_del_other {V} (k k' : pystr) (d : list (pystr * V)) :
  k' <> k -> dict_get k' (dict_del k d) = dict_get k' d.
Proof.
  intros Hne. induction d as [|[k0 v0] d IH]; simpl; [reflexivity|].
  destruct (str_eqb k0 k) eqn:E.
  - apply str_eqb_eq in E. subst.
    destruct (str_eqb k k') eqn:E'; [apply str_eqb_eq in E'; congruence | reflexivity].
  - simpl. rewrite IH. reflexivity.
Qed.

Lemma dict_get_del_same {V} (k : pystr) (d : list (pystr * V)) :
  List.NoDup (dict_keys d) -> dict_get k (dict_del k d) = None.
Proof.
  induction d as [|[k0 v0] d IH]; simpl; [reflexivity|].
  intros H. apply NoDup_cons_iff in H as [Hn Hd].
  destruct (str_eqb k0 k) eqn:E.
  - apply str_eqb_eq in E. subst. apply dict_get_None. exact Hn.
  - simpl. rewrite E. auto.
Qed.

Lemma dict_del_app_fresh {V} (k : pystr) (v : V) (d : list (pystr * V)) :
  dict_get k d = None -> dict_del k (d ++ [(k, v)]) = d.
Proof.
  induction d as [|[k0 v0] d IH]; simpl.
  - rewrite str_eqb_refl. reflexivity.
  - destruct (str_eqb k0 k); [discriminate|]. intros H. rewrite IH by exact H. reflexivity.
Qed.

Lemma AddressBook_delete_eq (n : pystr) (w : world) :
  AddressBook_delete n w =
    match dict_get n (data w) with
    | Some _ => Some (inr tt, mkWorld (heap w) (dict_del n (data w)))
    | None => Some (inl (ValueError (py "Contact not found")), w)
    end.
Proof.
  unfold AddressBook_delete, bind, get_data, dict_contains.
  destruct (dict_get n (data w)); reflexivity.
Qed.

(** [delete] of a name the book does not have raises "Contact not found" and
    changes nothing.  Of a name it has, it takes that one entry out: the
    entries before and after keep their order, every other name is found as
    before, the records themselves stay in the store, and, keys being
    distinct, the name is no longer found. *)
Theorem delete_takes_one_entry_out (w : world) (n : pystr) :
  (dict_get n (data w) = None ->
     AddressBook_delete n w = Some (inl (ValueError (py "Contact not found")), w))
  /\ (forall l, dict_get n (data w) = Some l ->
      exists d1 d2,
        data w = d1 ++ (n, l) :: d2
        /\ AddressBook_delete n w = Some (inr tt, mkWorld (heap w) (d1 ++ d2))
        /\ (forall n', n' <> n -> dict_get n' (d1 ++ d2) = dict_get n' (data w))
        /\ (List.NoDup (dict_keys (data w)) ->
            AddressBook_find n (mkWorld (heap w) (d1 ++ d2))
            = Some (inr None, mkWorld (heap w) (d1 ++ d2)))).
Proof.
  rewrite AddressBook_delete_eq. split.
  - intros ->. reflexivity.
  - intros l Hl. rewrite Hl.
    destruct (dict_del_split n l (data w) Hl) as (d1 & d2 & E & _ & Hd).
    exists d1, d2. rewrite <- Hd.
    split; [exact E|]. split; [reflexivity|]. split.
    + intros n' Hne. apply dict_get_del_other. exact Hne.
    + intros Hnd. unfold AddressBook_find, bind, get_data, ret. simpl.
      rewrite (dict_get_del_same n (data w) Hnd). reflexivity.
Qed.

(** A record whose name is not stored: after [add_record], [find] returns
    that record, and [delete] of its name gives back the world from
    before. *)
Theorem add_record_then_delete_restores (w : world) (record : loc) (r : RecordObj)
    (Hr : heap w !! record = Some r)
    (Habsent : dict_get (name r) (data w) = None) :
  exists w1,
    AddressBook_add_record record w = Some (inr tt, w1)
    /\ AddressBook_find (name r) w1 = Some (inr (Some record), w1)
    /\ AddressBook_delete (name r) w1 = Some (inr tt, w).
Proof.
  exists (mkWorld (heap w) (data w ++ [(name r, record)])).
  split; [|split].
  - rewrite (AddressBook_add_record_eq record w r Hr).
    unfold dict_contains. rewrite Habsent. rewrite (dict_set_fresh _ _ _ Habsent).
    reflexivity.
  - unfold AddressBook_find, bind, get_data, ret. simpl.
    rewrite (dict_get_app_fresh _ record _ Habsent). reflexivity.
  - rewrite AddressBook_delete_eq. simpl.
    rewrite (dict_get_app_fresh _ record _ Habsent).
    rewrite (dict_del_app_fresh _ record _ Habsent).
    destruct w; reflexivity.
Qed.

(** A record called Bob, allocated beside the book that holds Alice. *)
Lemma add_record_then_delete_restores_witness :
  let w := after (Record_init bob) world_alice in
  exists w1,
    AddressBook_add_record 1 w = Some (inr tt, w1)
    /\ AddressBook_find bob w1 = Some (inr (Some 1%nat), w1)
    /\ AddressBook_delete bob w1 = Some (inr tt, w).
Proof.
  apply (add_record_then_delete_restores (after (Record_init bob) world_alice) 1%nat
           (mkRecord bob [] None)); reflexivity.
Defined.

(** Deleting a stored name and adding its record again moves the entry to the
    end of the book: the order in which [get_upcoming_birthdays] and the dict
    iterate is the order of the last insertion of each name. *)
Theorem delete_then_add_record_moves_last (w : world) (n : pystr) (l : loc) (r : RecordObj)
    (Hnd : List.NoDup (dict_keys (data w)))
    (Hl : dict_get n (data w) = Some l)
    (Hr : heap w !! l = Some r) (Hn : name r = n) :
  exists d1 d2 w1,
    data w = d1 ++ (n, l) :: d2
    /\ AddressBook_delete n w = Some (inr tt, w1)
    /\ AddressBook_add_record l w1
       = Some (inr tt, mkWorld (heap w) (d1 ++ d2 ++ [(n, l)])).
Proof.
  destruct (dict_del_split n l (data w) Hl) as (d1 & d2 & E & _ & Hd).
  exists d1, d2, (mkWorld (heap w) (dict_del n (data w))).
  split; [exact E|]. split.
  - rewrite AddressBook_delete_eq, Hl. reflexivity.
  - rewrite (AddressBook_add_record_eq l (mkWorld (heap w) (dict_del n (data w))) r Hr).
    simpl. rewrite Hn.
    pose proof (dict_get_del_same n (data w) Hnd) as Hg.
    unfold dict_contains. rewrite Hg. rewrite (dict_set_fresh _ _ _ Hg).
    rewrite Hd, <- app_assoc. reflexivity.
Qed.

(** Alice, then Bob; Alice deleted and added again comes after Bob. *)
Lemma delete_then_add_record_moves_last_witness :
  exists w1,
    AddressBook_delete alice world_leap_day = Some (inr tt, w1)
    /\ AddressBook_add_record 0 w1
       = Some (inr tt, mkWorld (heap world_leap_day) [(bob, 1%nat); (alice, 0%nat)]).
Proof.
  destruct (delete_then_add_record_moves_last world_leap_day alice 0%nat
              (mkRecord alice [phone_a] (Some (mkdate 1990 3 1))))
    as (d1 & d2 & w1 & E & Hdel & Hadd).
  - apply book_ok_world_leap_day.
  - reflexivity.
  - reflexivity.
  - reflexivity.
  - exists w1. split; [exact Hdel|]. rewrite Hadd.
    assert (Hd : d1 = [] /\ d2 = [(bob, 1%nat)]).
    { destruct d1 as [|x d1]; simpl in E.
      - injection E as <-. auto.
      - injection E as <- E. destruct d1 as [|y d1]; simpl in E.
        + injection E as E _. discriminate E.
        + injection E as _ E. destruct d1; discriminate E. }
    destruct Hd as [-> ->]. reflexivity.
Defined.

(** ** The command handlers, case by case *)

Lemma change_contact_eq (w : world) (n o p : pystr) :
  change_contact [n; o; p] w =
    match dict_get n (data w) with
    | None => Some (inr (py "Contact does not exist"), w)
    | Some l =>
        match Record_edit_phone l o p w with
        | Some (inl e, w') => Some (inr (str_of_exn e), w')
        | Some (inr _, w') => Some (inr (py "Phone changed :)"), w')
        | None => None
        end
    end.
Proof.
  unfold change_contact, input_error, try_except.
  unfold bind at 1. unfold AddressBook_find, bind at 1, get_data, ret at 1.
  destruct (dict_get n (data w)) as [l|]; [|reflexivity].
  unfold bind. destruct (Record_edit_phone l o p w) as [[[e|[]] w']|]; reflexivity.
Qed.

Lemma add_birthday_eq (w : world) (n s : pystr) :
  add_birthday [n; s] w =
    match dict_get n (data w) with
    | None => Some (inr (py "Contact does not exist"), w)
    | Some l =>
        match Record_add_birthday l s w with
        | Some (inl e, w') => Some (inr (str_of_exn e), w')
        | Some (inr _, w') => Some (inr (py "Birthday added"), w')
        | None => None
        end
    end.
Proof.
  unfold add_birthday, input_error, try_except.
  unfold bind at 1. unfold AddressBook_find, bind at 1, get_data, ret at 1.
  destruct (dict_get n (data w)) as [l|]; [|reflexivity].
  unfold bind. destruct (Record_add_birthday l s w) as [[[e|[]] w']|]; reflexivity.
Qed.

Lemma show_phone_eq (w : world) (n : pystr) :
  show_phone [n] w =
    match dict_get n (data w) with
    | None => Some (inr (VStr (py "Contact does not exist")), w)
    | Some l => Some (inr (VRecord l), w)
    end.
Proof.
  unfold show_phone, input_error_val, try_except, bind, AddressBook_find, bind,
    get_data, ret.
  destruct (dict_get n (data w)); reflexivity.
Qed.

Lemma show_birthday_eq (w : world) (n : pystr) (l : loc) (r : RecordObj) :
  dict_get n (data w) = Some l -> heap w !! l = Some r ->
  show_birthday [n] w =
    match birthday r with
    | Some b => Some (inr (VBirthday b), w)
    | None => Some (inr (VStr (py "Birthday not added to this contact")), w)
    end.
Proof.
  intros Hl Hr.
  unfold show_birthday, input_error_val, try_except.
  unfold bind at 1. unfold AddressBook_find, bind at 1, get_data, ret at 1.
  rewrite Hl. unfold bind. rewrite (deref_eq l r w Hr).
  destruct (birthday r); reflexivity.
Qed.

Lemma show_birthday_unknown (w : world) (n : pystr) :
  dict_get n (data w) = None ->
  show_birthday [n] w = Some (inr (VStr (py "Contact does not exist")), w).
Proof.
  intros Hl.
  unfold show_birthday, input_error_val, try_except.
  unfold bind at 1. unfold AddressBook_find, bind at 1, get_data, ret at 1.
  rewrite Hl. reflexivity.
Qed.

(** A wrong number of arguments changes nothing and returns the usage hint:
    fewer than two for [add], other than three for [change], other than one
    for [phone] and [show-birthday], other than two for [add-birthday].  More
    than two arguments for [add] is not a usage hint: it returns the text of
    the unpacking error, "too many values to unpack (expected 2)". *)
Theorem wrong_argument_count (w : world) (args : list pystr) :
  ((length args < 2)%nat ->
     add_contact args w = Some (inr (py "Example: add [name] [phone]"), w))
  /\ ((2 < length args)%nat ->
     add_contact args w
     = Some (inr (py "too many values to unpack (expected 2)"), w))
  /\ (length args <> 3%nat ->
     change_contact args w
     = Some (inr (py "Example: change [name] [old_number] [new_number]"), w))
  /\ (length args <> 1%nat ->
     show_phone args w = Some (inr (VStr (py "Example: phone [name]")), w))
  /\ (length args <> 2%nat ->
     add_birthday args w = Some (inr (py "Example: add-birthday [name] [date]"), w))
  /\ (length args <> 1%nat ->
     show_birthday args w
     = Some (inr (VStr (py "Example: show-birthday [name]")), w)).
Proof.
  repeat apply conj; intros H.
  - destruct args as [|a [|b args]]; simpl in H; try lia; reflexivity.
  - destruct args as [|a [|b [|c args]]]; simpl in H; try lia; reflexivity.
  - destruct args as [|a [|b [|c [|d args]]]]; simpl in H; try lia; reflexivity.
  - destruct args as [|a [|b args]]; simpl in H; try lia; reflexivity.
  - destruct args as [|a [|b [|c args]]]; simpl in H; try lia; reflexivity.
  - destruct args as [|a [|b args]]; simpl in H; try lia; reflexivity.
Qed.

(** [add] with a name the book has: a phone the record already has returns
    "Phone number already exists", a phone [Phone] rejects returns "Phone
    number must be 10 digits", both leaving the world as it was; a valid new
    phone is appended to the record and "Contact updated" is returned. *)
Theorem add_contact_known_name (w : world) (n p : pystr) (l : loc) (r : RecordObj)
    (Hl : dict_get n (data w) = Some l) (Hr : heap w !! l = Some r) :
  (In p (phones r) ->
     add_contact [n; p] w = Some (inr (py "Phone number already exists"), w))
  /\ (~ In p (phones r) -> Phone p = inl InvalidPhone ->
     add_contact [n; p] w = Some (inr (py "Phone number must be 10 digits"), w))
  /\ (~ In p (phones r) -> Phone p = inr p ->
     add_contact [n; p] w
     = Some (inr (py "Contact updated"),
             mkWorld (<[l := mkRecord (name r) (phones r ++ [p]) (birthday r)]> (heap w))
                     (data w))).
Proof.
  rewrite (add_contact_known w n p l Hl), (Record_add_phone_eq l p w r Hr).
  repeat apply conj.
  - intros Hin. apply existsb_str_eqb in Hin. rewrite Hin. reflexivity.
  - intros Hn Hp.
    destruct (existsb _ _) eqn:E; [apply existsb_str_eqb in E; contradiction|].
    rewrite Hp. reflexivity.
  - intros Hn Hp.
    destruct (existsb _ _) eqn:E; [apply existsb_str_eqb in E; contradiction|].
    rewrite Hp. reflexivity.
Qed.

Lemma add_contact_known_name_witness :
  add_contact [alice; phone_a] world_alice
    = Some (inr (py "Phone number already exists"), world_alice)
  /\ add_contact [alice; py "12"] world_alice
    = Some (inr (py "Phone number must be 10 digits"), world_alice).
Proof.
  pose proof (add_contact_known_name world_alice alice) as H.
  split.
  - apply (H phone_a 0%nat (mkRecord alice [phone_a] None) eq_refl eq_refl).
    left. reflexivity.
  - apply (H (py "12") 0%nat (mkRecord alice [phone_a] None) eq_refl eq_refl).
    + simpl. intros [E|[]]. discriminate E.
    + reflexivity.
Defined.

(** [add] with a name the book does not have: the empty name returns "Name
    is a required field" and changes nothing; any other name with a valid
    phone returns "Contact added", and the book's new last entry is a record
    of that name with that one phone and no birthday, found under the name. *)
Theorem add_contact_new_name (w : world) (n p : pystr)
    (Habsent : dict_get n (data w) = None) :
  (n = [] -> add_contact [n; p] w = Some (inr (py "Name is a required field"), w))
  /\ (n <> [] -> Phone p = inr p ->
      add_contact [n; p] w
      = Some (inr (py "Contact added"),
              mkWorld (heap w ++ [mkRecord n [p] None])
                      (data w ++ [(n, length (heap w))]))
      /\ dict_get n (data w ++ [(n, length (heap w))]) = Some (length (heap w))
      /\ (heap w ++ [mkRecord n [p] None]) !! length (heap w)
         = Some (mkRecord n [p] None)).
Proof.
  split.
  - intros ->. apply add_contact_empty_name. exact Habsent.
  - intros Hn Hp. rewrite (add_contact_new w n p Hn Habsent), Hp.
    split; [reflexivity|]. split.
    + apply dict_get_app_fresh. exact Habsent.
    + apply lookup_fresh.
Qed.

Lemma add_contact_new_name_witness :
  add_contact [[]; phone_b] world_alice
    = Some (inr (py "Name is a required field"), world_alice)
  /\ add_contact [bob; phone_b] world_alice
    = Some (inr (py "Contact added"),
            mkWorld [mkRecord alice [phone_a] None; mkRecord bob [phone_b] None]
                    [(alice, 0%nat); (bob, 1%nat)]).
Proof.
  split.
  - apply (add_contact_new_name world_alice [] phone_b eq_refl). reflexivity.
  - apply (add_contact_new_name world_alice bob phone_b eq_refl).
    + discriminate.
    + reflexivity.
Defined.

(** [change] with three arguments: an unknown name returns "Contact does not
    exist"; an old number the record does not have, "Old phone number not
    found"; a new number [Phone] rejects, "Phone number must be 10 digits";
    in these cases the world is as it was.  Otherwise the new number is
    written at the first position of the old one and "Phone changed :)" is
    returned. *)
Theorem change_contact_outcomes (w : world) (n o p : pystr) :
  (dict_get n (data w) = None ->
     change_contact [n; o; p] w = Some (inr (py "Contact does not exist"), w))
  /\ (forall l r, dict_get n (data w) = Some l -> heap w !! l = Some r ->
      (~ In o (phones r) ->
         change_contact [n; o; p] w = Some (inr (py "Old phone number not found"), w))
      /\ (In o (phones r) -> Phone p = inl InvalidPhone ->
         change_contact [n; o; p] w
         = Some (inr (py "Phone number must be 10 digits"), w))
      /\ (In o (phones r) -> Phone p = inr p ->
         exists i,
           phones r !! i = Some o
           /\ (forall j, (j < i)%nat -> phones r !! j <> Some o)
           /\ change_contact [n; o; p] w
              = Some (inr (py "Phone changed :)"),
                      mkWorld (<[l := mkRecord (name r) (<[i := p]> (phones r)) (birthday r)]>
                                 (heap w))
                              (data w)))).
Proof.
  rewrite change_contact_eq. split.
  - intros ->. reflexivity.
  - intros l r Hl Hr. rewrite Hl, (Record_edit_phone_eq l o p w r Hr).
    repeat apply conj.
    + intros Hn. apply first_index_None in Hn. rewrite Hn. reflexivity.
    + intros Hin Hp. destruct (first_index_In _ _ Hin) as (i & ->). rewrite Hp. reflexivity.
    + intros Hin Hp. destruct (first_index_In _ _ Hin) as (i & Hi). rewrite Hi, Hp.
      exists i. split; [exact (first_index_Some _ _ _ Hi)|].
      split; [exact (first_index_least _ _ _ Hi) | reflexivity].
Qed.

(** [add-birthday] with two arguments: an unknown name returns "Contact does
    not exist", a date [Birthday] rejects returns "Invalid date format.
    Example: DD.MM.YYYY", both leaving the world as it was; an accepted date
    replaces whatever birthday the record had, its name and phones staying,
    and [show-birthday] then returns that birthday. *)
Theorem add_birthday_outcomes (w : world) (n s : pystr) :
  (dict_get n (data w) = None ->
     add_birthday [n; s] w = Some (inr (py "Contact does not exist"), w))
  /\ (forall l r, dict_get n (data w) = Some l -> heap w !! l = Some r ->
      (Birthday s = inl InvalidDateFormat ->
         add_birthday [n; s] w
         = Some (inr (py "Invalid date format. Example: DD.MM.YYYY"), w))
      /\ (forall b, Birthday s = inr b ->
          let w' := mkWorld (<[l := mkRecord (name r) (phones r) (Some b)]> (heap w))
                            (data w) in
          add_birthday [n; s] w = Some (inr (py "Birthday added"), w')
          /\ show_birthday [n] w' = Some (inr (VBirthday b), w')
          /\ str_of_val (VBirthday b) w' = Some (inr (Birthday_str b), w'))).
Proof.
  rewrite add_birthday_eq. split.
  - intros ->. reflexivity.
  - intros l r Hl Hr. rewrite Hl, (Record_add_birthday_eq l s w r Hr). split.
    + intros ->. reflexivity.
    + intros b ->. split; [reflexivity|]. split; [|reflexivity].
      assert (Hlt : (l < length (heap w))%nat) by (apply lookup_lt_Some with r; exact Hr).
      rewrite (show_birthday_eq _ n l (mkRecord (name r) (phones r) (Some b))).
      * reflexivity.
      * exact Hl.
      * apply list_lookup_insert_eq. exact Hlt.
Qed.

(** [phone] with one argument returns "Contact does not exist" for an
    unknown name and the record for a known one, which prints as
    "Contact name: ", the name, ", phones: ", the phones joined by "; ", and
    ", birthday: " with the date only if there is a birthday; [show-birthday]
    on a record without one returns "Birthday not added to this contact". *)
Theorem show_phone_outcomes (w : world) (n : pystr) :
  (dict_get n (data w) = None ->
     show_phone [n] w = Some (inr (VStr (py "Contact does not exist")), w)
     /\ show_birthday [n] w = Some (inr (VStr (py "Contact does not exist")), w))
  /\ (forall l r, dict_get n (data w) = Some l -> heap w !! l = Some r ->
      show_phone [n] w = Some (inr (VRecord l), w)
      /\ str_of_val (VRecord l) w
         = Some (inr (py "Contact name: " ++ name r ++ py ", phones: "
                        ++ str_join (py "; ") (phones r)
                        ++ match birthday r with
                           | Some b => py ", birthday: " ++ Birthday_str b
                           | None => []
                           end), w)
      /\ (birthday r = None ->
          show_birthday [n] w
          = Some (inr (VStr (py "Birthday not added to this contact")), w))).
Proof.
  rewrite show_phone_eq. split.
  - intros Hn. rewrite Hn. split; [reflexivity | apply show_birthday_unknown; exact Hn].
  - intros l r Hl Hr. rewrite Hl. split; [reflexivity|]. split.
    + unfold str_of_val, bind. rewrite (deref_eq l r w Hr). reflexivity.
    + intros Hb. rewrite (show_birthday_eq w n l r Hl Hr), Hb. reflexivity.
Qed.

(** ** Well-formed worlds stay well-formed, and handlers return *)

Lemma Phone_inr_valid (s p : pystr) : Phone s = inr p -> ten_decimal_digits p = true.
Proof.
  unfold Phone. rewrite phone_re_ten_decimal_digits.
  destruct (ten_decimal_digits s) eqn:E; simpl; [|discriminate].
  intros [= <-]. exact E.
Qed.

Lemma Birthday_inr_valid (s : pystr) (b : date) : Birthday s = inr b -> valid_date b.
Proof.
  intros H. apply Birthday_inr in H. apply strptime_Some in H.
  destruct H as (ds & ms & ys & _ & _ & _ & _ & Hr & ->). exact Hr.
Qed.

Lemma world_ok_store (w : world) (l : loc) (r r' : RecordObj) :
  world_ok w -> heap w !! l = Some r -> name r' = name r -> record_ok r' ->
  world_ok (mkWorld (<[l := r']> (heap w)) (data w)).
Proof.
  intros [Hb Hh] Hr Hn Hok. split.
  - exact (book_ok_store w l r r' Hb Hr Hn).
  - simpl. apply Forall_insert; assumption.
Qed.

Lemma world_ok_new_entry (w : world) (n : pystr) (ps : list pystr) :
  world_ok w -> dict_get n (data w) = None -> record_ok (mkRecord n ps None) ->
  world_ok (mkWorld (heap w ++ [mkRecord n ps None]) (data w ++ [(n, length (heap w))])).
Proof.
  intros [Hb Hh] Hg Hok. split.
  - exact (book_ok_new_entry w n ps Hb Hg).
  - simpl. apply Forall_app. split; [exact Hh|].
    apply Forall_cons. split; [exact Hok | apply Forall_nil; exact I].
Qed.

Lemma world_ok_lookup (w : world) (l : loc) (r : RecordObj) :
  world_ok w -> heap w !! l = Some r -> record_ok r.
Proof.
  intros [_ Hh] Hr. rewrite Forall_lookup in Hh. exact (Hh l r Hr).
Qed.

Lemma world_ok_stored (w : world) (n : pystr) (l : loc) :
  world_ok w -> dict_get n (data w) = Some l ->
  exists r, heap w !! l = Some r /\ name r = n.
Proof.
  intros [[_ Hb] _] Hl. apply Hb. apply dict_get_In. exact Hl.
Qed.

Lemma add_phone_world_ok (w : world) (l : loc) (r : RecordObj) (p : pystr) :
  world_ok w -> heap w !! l = Some r ->
  exists res w', Record_add_phone l p w = Some (res, w') /\ world_ok w'.
Proof.
  intros Hok Hr. rewrite (Record_add_phone_eq l p w r Hr).
  destruct (existsb _ _); [eauto|].
  destruct (Phone p) as [e|q] eqn:Hp; [eauto|].
  eexists _, _. split; [reflexivity|].
  destruct (world_ok_lookup w l r Hok Hr) as (Hn & Hps & Hb).
  apply (world_ok_store w l r); auto.
  split; [|split]; simpl; auto.
  apply Forall_app. split; [exact Hps|].
  apply Forall_cons. split; [exact (Phone_inr_valid p q Hp) | apply Forall_nil; exact I].
Qed.

Lemma edit_phone_world_ok (w : world) (l : loc) (r : RecordObj) (o p : pystr) :
  world_ok w -> heap w !! l = Some r ->
  exists res w', Record_edit_phone l o p w = Some (res, w') /\ world_ok w'.
Proof.
  intros Hok Hr. rewrite (Record_edit_phone_eq l o p w r Hr).
  destruct (first_index _ _) as [i|]; [|eauto].
  destruct (Phone p) as [e|q] eqn:Hp; [eauto|].
  eexists _, _. split; [reflexivity|].
  destruct (world_ok_lookup w l r Hok Hr) as (Hn & Hps & Hb).
  apply (world_ok_store w l r); auto.
  split; [|split]; simpl; auto.
  apply Forall_insert; [exact Hps | exact (Phone_inr_valid p q Hp)].
Qed.

Lemma remove_phone_world_ok (w : world) (l : loc) (r : RecordObj) (p : pystr) :
  world_ok w -> heap w !! l = Some r ->
  exists res w', Record_remove_phone l p w = Some (res, w') /\ world_ok w'.
Proof.
  intros Hok Hr. rewrite (Record_remove_phone_eq l p w r Hr).
  destruct (first_index _ _) as [i|]; [|eauto].
  eexists _, _. split; [reflexivity|].
  destruct (world_ok_lookup w l r Hok Hr) as (Hn & Hps & Hb).
  apply (world_ok_store w l r); auto.
  split; [|split]; simpl; auto.
  apply Forall_delete. exact Hps.
Qed.

Lemma add_birthday_world_ok (w : world) (l : loc) (r : RecordObj) (s : pystr) :
  world_ok w -> heap w !! l = Some r ->
  exists res w', Record_add_birthday l s w = Some (res, w') /\ world_ok w'.
Proof.
  intros Hok Hr. rewrite (Record_add_birthday_eq l s w r Hr).
  destruct (Birthday s) as [e|b] eqn:Hb; [eauto|].
  eexists _, _. split; [reflexivity|].
  destruct (world_ok_lookup w l r Hok Hr) as (Hn & Hps & _).
  apply (world_ok_store w l r); auto.
  split; [|split]; simpl; auto.
  intros b' [= <-]. exact (Birthday_inr_valid s b Hb).
Qed.

Lemma add_contact_world_ok (w : world) (args : list pystr) :
  world_ok w -> exists s w', add_contact args w = Some (inr s, w') /\ world_ok w'.
Proof.
  intros Hok.
  destruct args as [|n [|p [|x args]]]; try (eexists _, _; split; [reflexivity | exact Hok]).
  destruct (dict_get n (data w)) as [l|] eqn:Hg.
  - rewrite (add_contact_known w n p l Hg).
    destruct (world_ok_stored w n l Hok Hg) as (r & Hr & _).
    destruct (add_phone_world_ok w l r p Hok Hr) as ([e|[]] & w' & -> & Hok'); eauto.
  - destruct n as [|c n].
    + exists (py "Name is a required field"), w.
      split; [apply add_contact_empty_name; exact Hg | exact Hok].
    + rewrite (add_contact_new w (c :: n) p ltac:(discriminate) Hg).
      destruct (Phone p) as [e|q] eqn:Hp; eexists _, _; (split; [reflexivity|]);
        apply world_ok_new_entry; auto; (split; [|split]); simpl; try discriminate.
      * apply Forall_nil. exact I.
      * apply Forall_cons. split; [exact (Phone_inr_valid p q Hp) | apply Forall_nil; exact I].
Qed.

Lemma change_contact_world_ok (w : world) (args : list pystr) :
  world_ok w -> exists s w', change_contact args w = Some (inr s, w') /\ world_ok w'.
Proof.
  intros Hok.
  destruct args as [|n [|o [|p [|x args]]]];
    try (eexists _, _; split; [reflexivity | exact Hok]).
  rewrite change_contact_eq.
  destruct (dict_get n (data w)) as [l|] eqn:Hg; [|eauto].
  destruct (world_ok_stored w n l Hok Hg) as (r & Hr & _).
  destruct (edit_phone_world_ok w l r o p Hok Hr) as ([e|[]] & w' & -> & Hok'); eauto.
Qed.

Lemma add_birthday_handler_world_ok (w : world) (args : list pystr) :
  world_ok w -> exists s w', add_birthday args w = Some (inr s, w') /\ world_ok w'.
Proof.
  intros Hok.
  destruct args as [|n [|s [|x args]]];
    try (eexists _, _; split; [reflexivity | exact Hok]).
  rewrite add_birthday_eq.
  destruct (dict_get n (data w)) as [l|] eqn:Hg; [|eauto].
  destruct (world_ok_stored w n l Hok Hg) as (r & Hr & _).
  destruct (add_birthday_world_ok w l r s Hok Hr) as ([e|[]] & w' & -> & Hok'); eauto.
Qed.

Lemma show_phone_printed (w : world) (args : list pystr) :
  world_ok w ->
  exists s, bind (show_phone args) str_of_val w = Some (inr s, w).
Proof.
  intros Hok.
  destruct args as [|n [|x args]]; try (eexists; reflexivity).
  unfold bind. rewrite show_phone_eq.
  destruct (dict_get n (data w)) as [l|] eqn:Hg; [|eexists; reflexivity].
  destruct (world_ok_stored w n l Hok Hg) as (r & Hr & _).
  unfold str_of_val, bind. rewrite (deref_eq l r w Hr). eexists; reflexivity.
Qed.

Lemma show_birthday_printed (w : world) (args : list pystr) :
  world_ok w ->
  exists s, bind (show_birthday args) str_of_val w = Some (inr s, w).
Proof.
  intros Hok.
  destruct args as [|n [|x args]]; try (eexists; reflexivity).
  unfold bind.
  destruct (dict_get n (data w)) as [l|] eqn:Hg.
  - destruct (world_ok_stored w n l Hok Hg) as (r & Hr & _).
    rewrite (show_birthday_eq w n l r Hg Hr).
    destruct (birthday r); eexists; reflexivity.
  - rewrite (show_birthday_unknown w n Hg). eexists; reflexivity.
Qed.

(** The loop reads the store and leaves it alone, whether it returns or
    raises. *)
Lemma upcoming_loop_reads (today : date) (w : world) (records : list loc) :
  forall acc : list entry,
  (forall l, In l records -> exists r, heap w !! l = Some r) ->
  exists res, upcoming_loop today records acc w = Some (res, w).
Proof.
  induction records as [|l records IH]; intros acc Hh; cbn [upcoming_loop].
  - eexists; reflexivity.
  - destruct (Hh l (or_introl eq_refl)) as (r & Hr).
    unfold bind at 1. rewrite (deref_eq l r w Hr).
    assert (Hh' : forall l', In l' records -> exists r', heap w !! l' = Some r')
      by (intros; apply Hh; right; assumption).
    destruct (birthday r) as [b|]; [|apply IH; exact Hh'].
    unfold bind at 1.
    destruct (replace_year b (year today)) as [e|b1]; cbn [lift raise ret];
      [eexists; reflexivity|].
    unfold bind at 1.
    destruct (date_lt b1 today).
    + destruct (replace_year b1 (year today + 1)%Z) as [e|b2]; cbn [lift raise ret];
        [eexists; reflexivity|].
      destruct (_ && _); apply IH; exact Hh'.
    + cbn [ret]. destruct (_ && _); apply IH; exact Hh'.
Qed.

Lemma birthdays_printed (w : world) (today : date) :
  world_ok w -> exists s, birthdays today w = Some (inr s, w).
Proof.
  intros [Hb _]. unfold birthdays, input_error, try_except.
  unfold bind at 1. unfold AddressBook_get_upcoming_birthdays, bind at 1, get_data.
  destruct (upcoming_loop_reads today w (dict_values (data w)) [] (stored_locations w Hb))
    as ([e|up] & ->).
  - eexists; reflexivity.
  - destruct up; eexists; reflexivity.
Qed.

(** In a well-formed world no handler raises or reads a missing object:
    [add], [change] and [add-birthday] return a text and leave a well-formed
    world; [phone], [show-birthday] and [birthdays] return something that
    prints and leave the world as it was. *)
Theorem handlers_return (w : world) (Hok : world_ok w) (args : list pystr) (today : date) :
  (exists s w', add_contact args w = Some (inr s, w') /\ world_ok w')
  /\ (exists s w', change_contact args w = Some (inr s, w') /\ world_ok w')
  /\ (exists s w', add_birthday args w = Some (inr s, w') /\ world_ok w')
  /\ (exists v s, show_phone args w = Some (inr v, w)
                  /\ str_of_val v w = Some (inr s, w))
  /\ (exists v s, show_birthday args w = Some (inr v, w)
                  /\ str_of_val v w = Some (inr s, w))
  /\ (exists s, birthdays today w = Some (inr s, w)).
Proof.
  repeat apply conj.
  - exact (add_contact_world_ok w args Hok).
  - exact (change_contact_world_ok w args Hok).
  - exact (add_birthday_handler_world_ok w args Hok).
  - destruct (show_phone_printed w args Hok) as (s & H). unfold bind in H.
    destruct (show_phone args w) as [[[e|v] w1]|] eqn:E; try discriminate.
    assert (w1 = w).
    { destruct args as [|n [|x args]]; try (injection E as _ <-; reflexivity).
      rewrite show_phone_eq in E. destruct (dict_get n (data w)); injection E as _ <-;
        reflexivity. }
    subst w1. exists v, s. auto.
  - destruct (show_birthday_printed w args Hok) as (s & H). unfold bind in H.
    destruct (show_birthday args w) as [[[e|v] w1]|] eqn:E; try discriminate.
    assert (w1 = w).
    { destruct args as [|n [|x args]]; try (injection E as _ <-; reflexivity).
      destruct (dict_get n (data w)) as [l|] eqn:Hg.
      - destruct (world_ok_stored w n l Hok Hg) as (r & Hr & _).
        rewrite (show_birthday_eq w n l r Hg Hr) in E.
        destruct (birthday r); injection E as _ <-; reflexivity.
      - rewrite (show_birthday_unknown w n Hg) in E. injection E as _ <-. reflexivity. }
    subst w1. exists v, s. auto.
  - exact (birthdays_printed w today Hok).
Qed.

Lemma world_ok_world_alice : world_ok world_alice.
Proof.
  split; [exact book_ok_world_alice|].
  apply Forall_cons. split; [|apply Forall_nil; exact I].
  split; [|split]; simpl; try discriminate.
  apply Forall_cons. split; [reflexivity | apply Forall_nil; exact I].
Qed.

Lemma handlers_return_witness :
  (exists s w', add_contact [bob] world_alice = Some (inr s, w') /\ world_ok w')
  /\ (exists s, birthdays (mkdate 2025 2 25) world_alice = Some (inr s, world_alice)).
Proof.
  pose proof (handlers_return world_alice world_ok_world_alice [bob] (mkdate 2025 2 25))
    as (H1 & _ & _ & _ & _ & H6).
  split; [exact H1 | exact H6].
Defined.

(** ** [parse_input]: the tokens of a line *)

Lemma existsb_app_false {A} (f : A -> bool) (l1 l2 : list A) :
  existsb f l1 = false -> existsb f l2 = false -> existsb f (l1 ++ l2) = false.
Proof. intros H1 H2. rewrite existsb_app, H1, H2. reflexivity. Qed.

Lemma split_ws_tokens (s : pystr) : forall tok : pystr,
  existsb is_space tok = false ->
  Forall is_token (split_ws tok s).
Proof.
  induction s as [|c s IH]; intros tok Ht; cbn [split_ws].
  - destruct tok as [|x tok]; [apply Forall_nil; exact I|].
    apply Forall_cons. split; [split; [discriminate | exact Ht] | apply Forall_nil; exact I].
  - destruct (is_space c) eqn:Ec.
    + destruct tok as [|x tok]; [apply IH; reflexivity|].
      apply Forall_cons. split; [split; [discriminate | exact Ht] | apply IH; reflexivity].
    + apply IH. apply existsb_app_false; [exact Ht|]. simpl. rewrite Ec. reflexivity.
Qed.

Lemma split_ws_blank (s : pystr) : forallb is_space s = true -> split_ws [] s = [].
Proof.
  induction s as [|c s IH]; simpl; [reflexivity|].
  intros H. apply andb_true_iff in H as [-> H]. exact (IH H).
Qed.

Lemma split_ws_nil (s : pystr) : forall tok, split_ws tok s = [] -> tok = [] /\ forallb is_space s = true.
Proof.
  induction s as [|c s IH]; intros tok; cbn [split_ws].
  - destruct tok; [auto | discriminate].
  - simpl. destruct (is_space c).
    + destruct tok; [|discriminate]. intros H. destruct (IH [] H) as [_ ->]. auto.
    + intros H. destruct (IH _ H) as [E _]. destruct tok; discriminate E.
Qed.

Lemma split_ws_run (t rest : pystr) : forall tok : pystr,
  existsb is_space t = false -> split_ws tok (t ++ rest) = split_ws (tok ++ t) rest.
Proof.
  induction t as [|c t IH]; intros tok Ht; simpl.
  - rewrite app_nil_r. reflexivity.
  - simpl in Ht. apply orb_false_iff in Ht as [Hc Ht]. rewrite Hc.
    rewrite (IH _ Ht), <- app_assoc. reflexivity.
Qed.

Lemma split_join_tokens (ts : list pystr) :
  Forall is_token ts -> str_split (str_join [0x20%N] ts) = ts.
Proof.
  unfold str_split. induction ts as [|t ts IH]; intros H; [reflexivity|].
  apply Forall_cons in H as [[Hne Ht] Hts].
  destruct ts as [|t2 ts].
  - cbn [str_join]. rewrite <- (app_nil_r t) at 1.
    rewrite (split_ws_run t [] [] Ht). simpl. destruct t; [congruence | reflexivity].
  - change (str_join [0x20%N] (t :: t2 :: ts))
      with (t ++ 0x20%N :: str_join [0x20%N] (t2 :: ts)).
    rewrite (split_ws_run t _ [] Ht). cbn [app split_ws].
    change (is_space 0x20%N) with true. cbv iota.
    rewrite (IH Hts). destruct t; [congruence | reflexivity].
Qed.

Lemma existsb_rev_false {A} (f : A -> bool) (l : list A) :
  existsb f l = false -> existsb f (rev l) = false.
Proof.
  intros H. apply not_true_iff_false. intros E. apply existsb_exists in E as (x & Hx & Hf).
  apply in_rev in Hx. apply not_true_iff_false in H. apply H.
  apply existsb_exists. eauto.
Qed.

Lemma lstrip_ws_no_space (t : pystr) : existsb is_space t = false -> lstrip_ws t = t.
Proof.
  destruct t as [|c t]; simpl; [reflexivity|].
  intros H. apply orb_false_iff in H as [-> _]. reflexivity.
Qed.

Lemma str_strip_token (t : pystr) : existsb is_space t = false -> str_strip t = t.
Proof.
  intros H. unfold str_strip. rewrite (lstrip_ws_no_space t H).
  rewrite (lstrip_ws_no_space (rev t) (existsb_rev_false _ _ H)). apply rev_involutive.
Qed.

Lemma parse_input_eq (lower : pystr -> pystr) (user_input : pystr) :
  parse_input lower user_input =
    match str_split user_input with
    | [] => inl NothingToUnpack
    | cmd :: args => inr (lower cmd, args)
    end.
Proof.
  unfold parse_input.
  pose proof (split_ws_tokens user_input [] eq_refl) as H. fold (str_split user_input) in H.
  destruct (str_split user_input) as [|cmd args]; [reflexivity|].
  apply Forall_cons in H as [[_ Hc] _]. rewrite (str_strip_token cmd Hc). reflexivity.
Qed.

(** [parse_input], for whatever [str.lower] does: a line of whitespace only,
    the empty line among them, raises "not enough values to unpack (expected
    at least 1, got 0)"; on any other line the command is the lowering of the
    first token and every argument is a token, not empty and free of
    whitespace; and tokens joined by single blanks are read back as they
    are. *)
Theorem parse_input_tokens (lower : pystr -> pystr) (user_input : pystr) :
  (forallb is_space user_input = true <-> parse_input lower user_input = inl NothingToUnpack)
  /\ (forall command args, parse_input lower user_input = inr (command, args) ->
      Forall is_token args
      /\ exists cmd, is_token cmd /\ command = lower cmd
                     /\ str_split user_input = cmd :: args)
  /\ (forall cmd args, is_token cmd -> Forall is_token args ->
      parse_input lower (str_join [0x20%N] (cmd :: args)) = inr (lower cmd, args)).
Proof.
  split; [|split].
  - rewrite parse_input_eq. split.
    + intros H. assert (E : str_split user_input = []) by (apply split_ws_blank; exact H).
      rewrite E. reflexivity.
    + destruct (str_split user_input) eqn:E; [|discriminate].
      intros _. exact (proj2 (split_ws_nil user_input [] E)).
  - intros command args. rewrite parse_input_eq.
    pose proof (split_ws_tokens user_input [] eq_refl) as H. fold (str_split user_input) in H.
    destruct (str_split user_input) as [|cmd args']; [discriminate|].
    intros [= <- <-]. apply Forall_cons in H as [Hc Ha].
    split; [exact Ha|]. exists cmd. auto.
  - intros cmd args Hc Ha. rewrite parse_input_eq.
    rewrite split_join_tokens; [reflexivity|].
    apply Forall_cons. auto.
Qed.

(** ** A session of [main] *)






(** ** The order of dates and the count of days *)

Local Open Scope Z_scope.

Lemma days_before_year_succ (y : Z) :
  days_before_year (y + 1) = days_before_year y + 365 + (if is_leap y then 1 else 0).
Proof.
  unfold days_before_year, is_leap. cbv zeta.
  replace (y + 1 - 1) with y by lia.
  destruct (Z.eqb_spec (y mod 4) 0), (Z.eqb_spec (y mod 100) 0),
    (Z.eqb_spec (y mod 400) 0); simpl; Z.div_mod_to_equations; lia.
Qed.

Lemma days_before_year_mono (y1 y2 : Z) :
  y1 <= y2 -> days_before_year y1 <= days_before_year y2.
Proof.
  unfold days_before_year. cbv zeta. intros H. Z.div_mod_to_equations. lia.
Qed.

Lemma month_cases (m : Z) :
  1 <= m <= 12 ->
  m = 1 \/ m = 2 \/ m = 3 \/ m = 4 \/ m = 5 \/ m = 6 \/ m = 7 \/ m = 8 \/ m = 9
  \/ m = 10 \/ m = 11 \/ m = 12.
Proof. lia. Qed.

(** The day of the year of a date is between 1 and the length of the year. *)
Lemma day_of_year_bounds (y m d : Z) :
  1 <= m <= 12 -> 1 <= d <= month_length y m ->
  1 <= days_before_month y m + d <= 365 + (if is_leap y then 1 else 0).
Proof.
  intros Hm Hd. unfold days_before_month, month_length in *.
  rewrite <- is_leap_leap_year in Hd.
  apply month_cases in Hm.
  repeat (destruct Hm as [->|Hm]); try subst m; simpl in *; destruct (is_leap y); lia.
Qed.

(** Within a year, an earlier month ends before a later month begins. *)
Lemma month_before (y m1 m2 d1 : Z) :
  1 <= m1 -> m1 < m2 -> m2 <= 12 -> 1 <= d1 <= month_length y m1 ->
  days_before_month y m1 + d1 <= days_before_month y m2.
Proof.
  intros H1 H12 H2 Hd. unfold days_before_month, month_length in *.
  rewrite <- is_leap_leap_year in Hd.
  assert (C1 : 1 <= m1 <= 12) by lia. assert (C2 : 1 <= m2 <= 12) by lia.
  apply month_cases in C1. apply month_cases in C2.
  repeat (destruct C1 as [->|C1]); try subst m1;
    repeat (destruct C2 as [->|C2]); try subst m2; try lia;
    simpl in *; destruct (is_leap y); lia.
Qed.

Lemma toordinal_lt (a b : date) :
  valid_date a -> valid_date b -> date_lt a b = true -> toordinal a < toordinal b.
Proof.
  intros (Hya & Hma & Hda) (Hyb & Hmb & Hdb). unfold date_lt, toordinal, ymd2ord.
  pose proof (day_of_year_bounds _ _ _ Hma Hda) as Ba.
  pose proof (day_of_year_bounds _ _ _ Hmb Hdb) as Bb.
  intros H. apply orb_true_iff in H as [H|H].
  - apply Z.ltb_lt in H.
    pose proof (days_before_year_succ (year a)) as Hs.
    pose proof (days_before_year_mono (year a + 1) (year b) ltac:(lia)) as Hm.
    destruct (is_leap (year a)); lia.
  - apply andb_true_iff in H as [Hy H]. apply Z.eqb_eq in Hy.
    apply orb_true_iff in H as [H|H].
    + apply Z.ltb_lt in H. rewrite Hy in *.
      pose proof (month_before (year b) (month a) (month b) (day a)
                    ltac:(lia) H ltac:(lia) Hda).
      lia.
    + apply andb_true_iff in H as [Hm H]. apply Z.eqb_eq in Hm. apply Z.ltb_lt in H.
      rewrite Hy, Hm. lia.
Qed.

Lemma date_lt_trichotomy (a b : date) :
  date_lt a b = false -> date_lt b a = false ->
  year a = year b /\ month a = month b /\ day a = day b.
Proof.
  unfold date_lt. intros H1 H2.
  destruct (Z.ltb_spec (year a) (year b)), (Z.ltb_spec (year b) (year a)),
    (Z.eqb_spec (year a) (year b)), (Z.eqb_spec (year b) (year a)),
    (Z.ltb_spec (month a) (month b)), (Z.ltb_spec (month b) (month a)),
    (Z.eqb_spec (month a) (month b)), (Z.eqb_spec (month b) (month a)),
    (Z.ltb_spec (day a) (day b)), (Z.ltb_spec (day b) (day a));
    simpl in *; try discriminate; lia.
Qed.

Lemma toordinal_le (a b : date) :
  valid_date a -> valid_date b -> date_lt a b = false -> toordinal b <= toordinal a.
Proof.
  intros Ha Hb H. destruct (date_lt b a) eqn:E.
  - pose proof (toordinal_lt b a Hb Ha E). lia.
  - destruct (date_lt_trichotomy a b H E) as (Ey & Em & Ed).
    unfold toordinal. rewrite Ey, Em, Ed. lia.
Qed.

(** On days of the calendar the order of dates is the order of their
    ordinals, so the number of days the loop computes is never negative: the
    occurrence of a birthday, when there is one, is today or later, and the
    test [0 <= days_to_birthday] never fails. *)
Theorem days_to_birthday_not_negative :
  (forall a b : date, valid_date a -> valid_date b ->
     (date_lt a b = true <-> toordinal a < toordinal b))
  /\ (forall b today o : date, valid_date b -> valid_date today ->
      occurrence b today = Some o ->
      0 <= sub_days o today
      /\ ((0 <=? sub_days o today) && (sub_days o today <=? 7)
          = (sub_days o today <=? 7))).
Proof.
  split.
  - intros a b Ha Hb. split; [apply toordinal_lt; assumption|].
    intros H. destruct (date_lt a b) eqn:E; [reflexivity|].
    pose proof (toordinal_le a b Ha Hb E). lia.
  - intros b today o Hb Ht Ho.
    assert (H0 : 0 <= sub_days o today).
    { unfold occurrence in Ho.
      destruct (in_year b (year today)) as [o1|] eqn:E1; [|discriminate].
      pose proof (in_year_fields _ _ _ E1) as (Hy1 & _ & _).
      pose proof (in_year_valid b _ o1 Hb E1) as Hv1.
      destruct (earlier_in_year o1 today) eqn:Ee.
      - pose proof (in_year_fields _ _ _ Ho) as (Hy & _ & _).
        pose proof (in_year_valid b _ o Hb Ho) as Hv.
        assert (L : date_lt today o = true).
        { unfold date_lt. rewrite Hy.
          replace (year today <? year today + 1) with true
            by (symmetry; apply Z.ltb_lt; lia).
          reflexivity. }
        pose proof (toordinal_lt today o Ht Hv L). unfold sub_days. lia.
      - injection Ho as <-.
        rewrite <- (date_lt_same_year o1 today Hy1) in Ee.
        pose proof (toordinal_le o1 today Hv1 Ht Ee). unfold sub_days. lia. }
    split; [exact H0|].
    replace (0 <=? sub_days o today) with true by (symmetry; apply Z.leb_le; exact H0).
    reflexivity.
Qed.

Local Close Scope Z_scope.

(** ** A birthday as text and back *)

Local Open Scope Z_scope.

Lemma zrange_In (n : nat) : forall lo x : Z,
  lo <= x < lo + Z.of_nat n -> In x (zrange lo n).
Proof.
  induction n as [|n IH]; intros lo x H; [lia|].
  cbn [zrange]. destruct (Z.eq_dec lo x) as [->|Hne]; [left; reflexivity|].
  right. apply IH. lia.
Qed.

Lemma range_forall (f : Z -> bool) (lo : Z) (len : nat) :
  forallb f (zrange lo len) = true ->
  forall n, lo <= n < lo + Z.of_nat len -> f n = true.
Proof.
  intros H n Hn. rewrite forallb_forall in H. apply H. apply zrange_In. exact Hn.
Qed.

Lemma pad2_two_digits (n : Z) :
  0 <= n < 100 -> pad2 n = [digit_char (n / 10); digit_char (n mod 10)].
Proof.
  intros Hn. apply str_eqb_eq.
  apply (range_forall
           (fun n => str_eqb (pad2 n) [digit_char (n / 10); digit_char (n mod 10)])
           0 (Z.to_nat 100));
    [vm_compute; reflexivity | rewrite Z2Nat.id by lia; lia].
Qed.

Lemma year_four_digits (y : Z) :
  1000 <= y <= 9999 ->
  str_of_int y = [digit_char (y / 1000); digit_char (y / 100 mod 10);
                  digit_char (y / 10 mod 10); digit_char (y mod 10)].
Proof.
  intros Hy. apply str_eqb_eq.
  apply (range_forall
           (fun y => str_eqb (str_of_int y)
                       [digit_char (y / 1000); digit_char (y / 100 mod 10);
                        digit_char (y / 10 mod 10); digit_char (y mod 10)])
           1000 (Z.to_nat 9000));
    [vm_compute; reflexivity | rewrite Z2Nat.id by lia; lia].
Qed.

Lemma digit_char_ascii (k : Z) : 0 <= k <= 9 -> is_ascii_digit (digit_char k) = true.
Proof.
  intros H. unfold is_ascii_digit, digit_char.
  apply andb_true_iff. split; apply N.leb_le; lia.
Qed.

Lemma digit_char_of_ascii (c : codepoint) :
  is_ascii_digit c = true -> digit_char (Z.of_N c - 48) = c.
Proof.
  intros H. apply ascii_bounds in H. unfold digit_char. lia.
Qed.

Lemma number_of_four_ascii (a b c e : codepoint) :
  is_ascii_digit a = true -> is_ascii_digit b = true ->
  is_ascii_digit c = true -> is_ascii_digit e = true ->
  number_of [a; b; c; e]
  = 1000 * (Z.of_N a - 48) + 100 * (Z.of_N b - 48) + 10 * (Z.of_N c - 48) + (Z.of_N e - 48).
Proof.
  intros Ha Hb Hc He. unfold number_of. cbn [fold_left].
  rewrite (digit_value_ascii a Ha), (digit_value_ascii b Hb),
    (digit_value_ascii c Hc), (digit_value_ascii e He).
  apply ascii_bounds in Ha, Hb, Hc, He. lia.
Qed.

Lemma ascii_digit_not_dot (c : codepoint) : is_ascii_digit c = true -> c <> chr ".".
Proof.
  intros H ->. discriminate H.
Qed.

(** The text of a date from year 1000 on has the literal shape, and reads
    back as the date. *)
Lemma Birthday_str_parses (d : date) :
  valid_date d -> 1000 <= year d -> Birthday (Birthday_str d) = inr d.
Proof.
  intros Hv Hy. pose proof Hv as (Hyr & Hm & Hd).
  pose proof (month_length_le_31 (year d) (month d)) as H31.
  unfold Birthday_str.
  rewrite (pad2_two_digits (day d)) by lia.
  rewrite (pad2_two_digits (month d)) by lia.
  rewrite (year_four_digits (year d)) by lia.
  change (py ".") with [chr "."]. cbn [app].
  assert (A : forall k, 0 <= k <= 9 -> is_ascii_digit (digit_char k) = true)
    by exact digit_char_ascii.
  assert (D1 : 0 <= day d / 10 <= 9) by (Z.div_mod_to_equations; lia).
  assert (D2 : 0 <= day d mod 10 <= 9) by (Z.div_mod_to_equations; lia).
  assert (M1 : 0 <= month d / 10 <= 9) by (Z.div_mod_to_equations; lia).
  assert (M2 : 0 <= month d mod 10 <= 9) by (Z.div_mod_to_equations; lia).
  assert (Y1 : 0 <= year d / 1000 <= 9) by (Z.div_mod_to_equations; lia).
  assert (Y2 : 0 <= year d / 100 mod 10 <= 9) by (Z.div_mod_to_equations; lia).
  assert (Y3 : 0 <= year d / 10 mod 10 <= 9) by (Z.div_mod_to_equations; lia).
  assert (Y4 : 0 <= year d mod 10 <= 9) by (Z.div_mod_to_equations; lia).
  assert (Nd : number_of [digit_char (day d / 10); digit_char (day d mod 10)] = day d).
  { rewrite number_of_two_ascii by (apply A; assumption).
    unfold digit_char. Z.div_mod_to_equations. lia. }
  assert (Nm : number_of [digit_char (month d / 10); digit_char (month d mod 10)] = month d).
  { rewrite number_of_two_ascii by (apply A; assumption).
    unfold digit_char. Z.div_mod_to_equations. lia. }
  assert (Ny : number_of [digit_char (year d / 1000); digit_char (year d / 100 mod 10);
                          digit_char (year d / 10 mod 10); digit_char (year d mod 10)]
               = year d).
  { rewrite number_of_four_ascii by (apply A; assumption).
    unfold digit_char. Z.div_mod_to_equations. lia. }
  apply Birthday_inr.
  match goal with |- strptime ?s = _ => pose proof (strptime_DD_MM_YYYY s) as P end.
  cbn [take drop] in P. rewrite Nd, Nm, Ny in P.
  rewrite P.
  - destruct d; reflexivity.
  - unfold is_DD_MM_YYYY. cbn [forallb].
    rewrite !A by assumption. rewrite !N.eqb_refl. reflexivity.
  - exact Hv.
Qed.

(** A text of the literal shape that [Birthday] accepts with a year from 1000
    on is the text of the date it stands for. *)
Lemma Birthday_str_of_parsed (s : pystr) (d : date) :
  is_DD_MM_YYYY s = true -> Birthday s = inr d -> 1000 <= year d -> Birthday_str d = s.
Proof.
  destruct s as [|d1 [|d2 [|p1 [|m1 [|m2 [|p2 [|y1 [|y2 [|y3 [|y4 [|z s]]]]]]]]]]];
    try discriminate.
  unfold is_DD_MM_YYYY. cbn [forallb].
  rewrite !andb_true_iff, !N.eqb_eq.
  intros [[(A1 & A2 & A3 & A4 & A5 & A6 & A7 & A8 & _) ->] ->] Hb Hy.
  apply Birthday_inr in Hb. apply strptime_Some in Hb.
  destruct Hb as (ds & ms & ys & E & Hd & Hm & Hys & Hr & ->).
  change [d1; d2; chr "."; m1; m2; chr "."; y1; y2; y3; y4]
    with ([d1; d2] ++ chr "." :: [m1; m2] ++ chr "." :: [y1; y2; y3; y4]) in E.
  apply split_at_separator in E as [<- E].
  2:{ simpl. intros [H|[H|[]]]; [exact (ascii_digit_not_dot d1 A1 H)
                               | exact (ascii_digit_not_dot d2 A2 H)]. }
  2:{ apply day_text_no_dot. exact Hd. }
  apply split_at_separator in E as [<- <-].
  2:{ simpl. intros [H|[H|[]]]; [exact (ascii_digit_not_dot m1 A3 H)
                               | exact (ascii_digit_not_dot m2 A4 H)]. }
  2:{ apply month_text_no_dot. exact Hm. }
  cbn [year] in Hy. destruct Hr as (Hyr & Hmr & Hdr).
  pose proof (month_length_le_31 (number_of [y1; y2; y3; y4]) (number_of [m1; m2])) as H31.
  unfold Birthday_str. cbn [year month day].
  rewrite (pad2_two_digits (number_of [d1; d2])) by lia.
  rewrite (pad2_two_digits (number_of [m1; m2])) by lia.
  rewrite (year_four_digits (number_of [y1; y2; y3; y4])) by lia.
  rewrite (number_of_two_ascii d1 d2 A1 A2), (number_of_two_ascii m1 m2 A3 A4),
    (number_of_four_ascii y1 y2 y3 y4 A5 A6 A7 A8).
  pose proof (ascii_bounds _ A1). pose proof (ascii_bounds _ A2).
  pose proof (ascii_bounds _ A3). pose proof (ascii_bounds _ A4).
  pose proof (ascii_bounds _ A5). pose proof (ascii_bounds _ A6).
  pose proof (ascii_bounds _ A7). pose proof (ascii_bounds _ A8).
  change (py ".") with [chr "."]. cbn [app].
  repeat f_equal; unfold digit_char; Z.div_mod_to_equations; lia.
Qed.

Local Close Scope Z_scope.

(** From year 1000 on, [str] and [Birthday] undo each other: the text of a
    day of the calendar reads back as that day, and an accepted text of the
    literal shape DD.MM.YYYY is printed back as it was typed.  So after
    [add-birthday] with such a text, [show-birthday] prints that text. *)
Theorem birthday_text_round_trip :
  (forall d : date, valid_date d -> (1000 <= year d)%Z ->
     Birthday (Birthday_str d) = inr d)
  /\ (forall (s : pystr) (d : date),
        is_DD_MM_YYYY s = true -> Birthday s = inr d -> (1000 <= year d)%Z ->
        Birthday_str d = s)
  /\ (forall (w : world) (n s : pystr) (l : loc) (r : RecordObj) (d : date),
        dict_get n (data w) = Some l -> heap w !! l = Some r ->
        is_DD_MM_YYYY s = true -> Birthday s = inr d -> (1000 <= year d)%Z ->
        exists w',
          add_birthday [n; s] w = Some (inr (py "Birthday added"), w')
          /\ bind (show_birthday [n]) str_of_val w' = Some (inr s, w')).
Proof.
  split; [exact Birthday_str_parses|]. split; [exact Birthday_str_of_parsed|].
  intros w n s l r d Hl Hr Hs Hb Hy.
  exists (mkWorld (<[l := mkRecord (name r) (phones r) (Some d)]> (heap w)) (data w)).
  split.
  - rewrite add_birthday_eq, Hl, (Record_add_birthday_eq l s w r Hr), Hb. reflexivity.
  - assert (Hlt : (l < length (heap w))%nat) by (apply lookup_lt_Some with r; exact Hr).
    unfold bind.
    rewrite (show_birthday_eq
               (mkWorld (<[l := mkRecord (name r) (phones r) (Some d)]> (heap w)) (data w))
               n l (mkRecord (name r) (phones r) (Some d)) Hl
               (list_lookup_insert_eq _ _ _ Hlt)).
    cbn [birthday str_of_val ret].
    rewrite (Birthday_str_of_parsed s d Hs Hb Hy). reflexivity.
Qed.

(** 29.02.2024 for Alice, and the day 1 March 1990 as text. *)
Lemma birthday_text_round_trip_witness :
  Birthday (Birthday_str (mkdate 1990 3 1)) = inr (mkdate 1990 3 1)
  /\ exists w',
       add_birthday [alice; py "29.02.2024"] world_alice
       = Some (inr (py "Birthday added"), w')
       /\ bind (show_birthday [alice]) str_of_val w' = Some (inr (py "29.02.2024"), w').
Proof.
  pose proof birthday_text_round_trip as (H1 & _ & H3).
  split.
  - apply H1; [vm_compute; intuition discriminate | simpl; lia].
  - apply (H3 world_alice alice (py "29.02.2024") 0%nat (mkRecord alice [phone_a] None)
             (mkdate 2024 2 29)); try reflexivity.
    simpl. lia.
Defined.

(** ** When the query returns, and what its dates look like *)

Local Open Scope Z_scope.

Lemma in_year_None_leap_day (b : date) (y : Z) :
  valid_date b -> 1 <= y <= 9999 -> in_year b y = None ->
  month b = 2 /\ day b = 29 /\ leap_year y = false.
Proof.
  intros (_ & Hm & Hd) Hy. unfold in_year.
  replace ((1 <=? y) && (y <=? 9999)) with true
    by (symmetry; rewrite andb_true_iff, !Z.leb_le; lia).
  cbn [andb].
  destruct (Z.leb_spec (day b) (month_length y (month b))) as [|Hlt]; [discriminate|].
  intros _. unfold month_length in *.
  destruct ((month b =? 4) || (month b =? 6) || (month b =? 9) || (month b =? 11));
    [lia|].
  destruct (Z.eqb_spec (month b) 2) as [E|]; [|lia].
  destruct (leap_year (year b)), (leap_year y); try lia; auto with zarith.
Qed.

Lemma occurrence_None_leap_day (b today : date) :
  valid_date b -> 1 <= year today <= 9998 -> occurrence b today = None ->
  month b = 2 /\ day b = 29.
Proof.
  intros Hb Hy. unfold occurrence.
  destruct (in_year b (year today)) as [o1|] eqn:E1.
  - destruct (earlier_in_year o1 today); [|discriminate].
    intros E2.
    destruct (in_year_None_leap_day b (year today + 1)%Z Hb ltac:(lia) E2) as (? & ? & _).
    auto.
  - intros _.
    destruct (in_year_None_leap_day b (year today) Hb ltac:(lia) E1) as (? & ? & _). auto.
Qed.

Local Close Scope Z_scope.

(** Either every birthday among the records has an occurrence, or one of the
    records has a birthday without. *)
Lemma occurrences_decide (today : date) (w : world) (records : list loc) :
  (forall l r b, In l records -> heap w !! l = Some r -> birthday r = Some b ->
     exists o, occurrence b today = Some o)
  \/ (exists l r b, In l records /\ heap w !! l = Some r /\ birthday r = Some b
                    /\ occurrence b today = None).
Proof.
  induction records as [|l records IH]; [left; intros l r b []|].
  destruct IH as [IH|(l' & r & b & Hin & H)];
    [|right; exists l', r, b; split; [right; exact Hin | exact H]].
  destruct (heap w !! l) as [r|] eqn:Hr.
  - destruct (birthday r) as [b|] eqn:Hb.
    + destruct (occurrence b today) as [o|] eqn:Ho.
      * left. intros l' r' b' [<-|Hin] Hr' Hb'; [|eauto].
        assert (r' = r) by congruence. subst r'.
        assert (b' = b) by congruence. subst b'. eauto.
      * right. exists l, r, b. split; [left; reflexivity | auto].
    + left. intros l' r' b' [<-|Hin] Hr' Hb'; [congruence | eauto].
  - left. intros l' r' b' [<-|Hin] Hr' Hb'; [congruence | eauto].
Qed.

Lemma stored_records_inv (w : world) (r : RecordObj) :
  In r (stored_records w) ->
  exists l, In l (dict_values (data w)) /\ heap w !! l = Some r.
Proof.
  unfold stored_records. intros H. apply list_elem_of_In in H.
  apply list_elem_of_omap in H as (l & Hl & Hr).
  exists l. split; [apply list_elem_of_In; exact Hl | exact Hr].
Qed.

(** In a well-formed book with calendar birthdays the query never touches
    the world, and it returns a list exactly when every stored birthday has an
    occurrence for [today]: then the list is the entries of the records in
    the window, in book order; otherwise it raises. *)
Theorem upcoming_birthdays_returns_iff (w : world) (today : date)
    (Hok : book_ok w) (Hv : birthdays_valid w) :
  (occurrences_exist today w
   /\ AddressBook_get_upcoming_birthdays today w
      = Some (inr (omap (upcoming_entry today) (stored_records w)), w))
  \/ (~ occurrences_exist today w
      /\ exists e, AddressBook_get_upcoming_birthdays today w = Some (inl e, w)).
Proof.
  unfold AddressBook_get_upcoming_birthdays, bind, get_data.
  destruct (occurrences_decide today w (dict_values (data w))) as [H|H].
  - left. split.
    + intros r b Hin Hb. destruct (stored_records_inv w r Hin) as (l & Hl & Hr). eauto.
    + rewrite (upcoming_loop_entries today w (dict_values (data w)) []); [reflexivity | |].
      * apply stored_locations. exact Hok.
      * intros l r b Hin Hr Hb. split; [exact (Hv l r b Hin Hr Hb) | eauto].
  - right. split.
    + destruct H as (l & r & b & Hin & Hr & Hb & Ho). intros Hex.
      destruct (Hex r b (stored_records_In w l r Hin Hr) Hb) as (o & Ho'). congruence.
    + apply upcoming_loop_raises; [apply stored_locations; exact Hok | exact Hv | exact H].
Qed.

(** The book of Alice and Bob, Bob born on a 29 February, seen from 2025 and
    from the leap year 2028. *)
Lemma upcoming_birthdays_returns_iff_witness :
  (exists e, AddressBook_get_upcoming_birthdays (mkdate 2025 2 25) world_leap_day
             = Some (inl e, world_leap_day))
  /\ AddressBook_get_upcoming_birthdays (mkdate 2028 2 25) world_leap_day
     = Some (inr [mkEntry alice (py "2028.03.01"); mkEntry bob (py "2028.02.29")],
             world_leap_day).
Proof.
  split.
  - destruct (upcoming_birthdays_returns_iff world_leap_day (mkdate 2025 2 25)
                book_ok_world_leap_day birthdays_valid_world_leap_day)
      as [[_ E]|[_ E]]; [|exact E].
    vm_compute in E. discriminate E.
  - destruct (upcoming_birthdays_returns_iff world_leap_day (mkdate 2028 2 25)
                book_ok_world_leap_day birthdays_valid_world_leap_day)
      as [[_ E]|[_ (e & E)]]; [exact E|].
    vm_compute in E. discriminate E.
Defined.

(** Only a birthday on 29 February can stop the query: in a well-formed
    book with calendar birthdays none of which is a 29 February, for any
    reference date up to the year 9998, the query returns the entries of the
    records in the window, in book order. *)
Theorem upcoming_birthdays_without_leap_days (w : world) (today : date)
    (Hok : book_ok w) (Hv : birthdays_valid w)
    (Hy : (1 <= year today <= 9998)%Z)
    (Hleap : forall r b, In r (stored_records w) -> birthday r = Some b ->
             ~ (month b = 2%Z /\ day b = 29%Z)) :
  AddressBook_get_upcoming_birthdays today w
  = Some (inr (omap (upcoming_entry today) (stored_records w)), w).
Proof.
  unfold AddressBook_get_upcoming_birthdays, bind, get_data.
  rewrite (upcoming_loop_entries today w (dict_values (data w)) []); [reflexivity | |].
  - apply stored_locations. exact Hok.
  - intros l r b Hin Hr Hb. pose proof (Hv l r b Hin Hr Hb) as Hvb.
    split; [exact Hvb|].
    destruct (occurrence b today) as [o|] eqn:Ho; [eauto|].
    exfalso. apply (Hleap r b (stored_records_In w l r Hin Hr) Hb).
    exact (occurrence_None_leap_day b today Hvb Hy Ho).
Qed.

(** The book of Alice, born 01.01.1990, seen from 30.12.2024. *)
Lemma upcoming_birthdays_without_leap_days_witness :
  AddressBook_get_upcoming_birthdays (mkdate 2024 12 30) world_new_year
  = Some (inr [mkEntry alice (py "2025.01.01")], world_new_year).
Proof.
  apply (upcoming_birthdays_without_leap_days world_new_year (mkdate 2024 12 30)
           book_ok_world_new_year birthdays_valid_world_new_year).
  - simpl. lia.
  - intros r b Hin Hb.
    assert (E : stored_records world_new_year
                = [mkRecord alice [phone_a] (Some (mkdate 1990 1 1))])
      by (vm_compute; reflexivity).
    rewrite E in Hin. destruct Hin as [<-|[]]. injection Hb as <-.
    simpl. intros [H _]. discriminate H.
Defined.

(** From year 1000 on the date of an entry has the shape YYYY.MM.DD: four
    digits of the year, a dot, two digits of the month, a dot, two digits of
    the day, ten characters in all. *)
Theorem congratulation_date_shape (o : date)
    (Hv : valid_date o) (Hy : (1000 <= year o)%Z) :
  strftime_Ymd o
  = [digit_char (year o / 1000); digit_char (year o / 100 mod 10);
     digit_char (year o / 10 mod 10); digit_char (year o mod 10); chr ".";
     digit_char (month o / 10); digit_char (month o mod 10); chr ".";
     digit_char (day o / 10); digit_char (day o mod 10)]
  /\ forallb is_ascii_digit
       [digit_char (year o / 1000); digit_char (year o / 100 mod 10);
        digit_char (year o / 10 mod 10); digit_char (year o mod 10);
        digit_char (month o / 10); digit_char (month o mod 10);
        digit_char (day o / 10); digit_char (day o mod 10)] = true.
Proof.
  destruct Hv as (Hyr & Hm & Hd).
  pose proof (month_length_le_31 (year o) (month o)) as H31.
  split.
  - unfold strftime_Ymd.
    rewrite (pad2_two_digits (day o)) by lia.
    rewrite (pad2_two_digits (month o)) by lia.
    rewrite (year_four_digits (year o)) by lia.
    reflexivity.
  - cbn [forallb].
    rewrite !digit_char_ascii by (Z.div_mod_to_equations; lia). reflexivity.
Qed.

Lemma congratulation_date_shape_witness :
  strftime_Ymd (mkdate 2025 1 1) = py "2025.01.01".
Proof.
  apply (congratulation_date_shape (mkdate 2025 1 1)).
  - vm_compute. intuition discriminate.
  - simpl. lia.
Defined.
